(** * Training-data generator: a shallow embedding of [index.js]

    The program composites every base document image onto every background of
    a catalog and files the result under [train/] or [test/].  The embedding
    follows the source function by function:

    - JavaScript numbers are IEEE 754 binary64 values, modelled with the
      Standard Library's executable [SpecFloat]; integers that the program
      only ever holds exactly (image sizes, time stamps, the 32-bit draw of
      the generator) are carried as [Z];
    - the file system, the console and the clock are an explicit [world]
      threaded through a state-and-exception monad [M]; a rejected promise
      that is awaited, and a synchronous exception, are both a [Throw];
    - the collaborators that are not part of the repository (the seeded
      generator, [path.join], [path.relative], [glob], the aspect-preserving
      height chosen by the image engine) are fields of a [Platform];
    - [placeOnTransparent] starts its last [toFile] and neither awaits nor
      returns it: the function hands back the write it has [launched] and
      leaves the world as it found it.  The write runs [in_flight] while
      [generate] is suspended at its [await]; a rejection that nobody
      handles ends the Node process with that error, which for the run is
      a [Throw].

    What the embedding leaves out:

    - [background/background-meta.json] is read as a JSON array of entries,
      so that [Object.entries] enumerates positions;
    - the write left in flight is completed before the next line is
      printed, although the engine may finish it later, and the steps the
      loop may still take between the failure of such a write and the end
      of the process are not kept;
    - of the image engine the decoding of inputs, the validation of sizes
      and offsets, the size of the result and the refusals that depend on
      sizes (pixel limit of an input, overlay larger than the canvas, side
      limit of a JPEG) are modelled; pixels, the format limits of the
      intermediate buffers and a missing output directory are not. *)

From Stdlib Require Import ZArith String Ascii List Lia Bool.
From Stdlib Require Import Floats.SpecFloat DecimalString Decimal.
From stdpp Require Import gmap strings list.

Open Scope string_scope.
Open Scope Z_scope.

(* ===================================================================== *)
(** ** JavaScript numbers *)
(* ===================================================================== *)

Module Number.

Definition prec : Z := 53.
Definition emax : Z := 1024.

(** The double nearest to an integer (exact below 2^53). *)
Definition of_Z (z : Z) : spec_float := binary_normalize prec emax z 0 false.

Definition mul : spec_float -> spec_float -> spec_float := SFmul prec emax.
Definition div : spec_float -> spec_float -> spec_float := SFdiv prec emax.
Definition ltb : spec_float -> spec_float -> bool := SFltb.
Definition leb : spec_float -> spec_float -> bool := SFleb.

(** A decimal literal [n/d] of the source, e.g. [1.2] is [lit 12 10]:
    correctly rounded division yields the double the literal denotes. *)
Definition lit (n d : Z) : spec_float := div (of_Z n) (of_Z d).

(** The signed integer mantissa of a finite value. *)
Definition signed (s : bool) (m : positive) : Z := cond_Zopp s (Zpos m).

(** [Math.floor]: NaN, infinities and zeros are returned unchanged. *)
Definition floor (x : spec_float) : spec_float :=
  match x with
  | S754_finite s m e =>
      if 0 <=? e then x
      else binary_normalize prec emax (Z.shiftl (signed s m) e) 0 s
  | _ => x
  end.

(** [Math.round]: the nearest integer, ties towards plus infinity. *)
Definition round (x : spec_float) : spec_float :=
  match x with
  | S754_finite s m e =>
      if 0 <=? e then x
      else binary_normalize prec emax
             (Z.shiftl (2 * signed s m + Z.shiftl 1 (- e)) (e - 1)) 0 s
  | _ => x
  end.

(** [Number.isInteger] together with the integer itself. *)
Definition to_integer (x : spec_float) : option Z :=
  match x with
  | S754_zero _ => Some 0
  | S754_finite s m e =>
      if 0 <=? e then Some (Z.shiftl (signed s m) e)
      else if Z.land (Zpos m) (Z.ones (- e)) =? 0
           then Some (Z.shiftl (signed s m) e)
           else None
  | _ => None
  end.

End Number.

Abbreviation number := spec_float (only parsing).

(** [x | 0]: conversion to a signed 32-bit integer. *)
Definition to_int32 (z : Z) : Z := (z + 2 ^ 31) mod 2 ^ 32 - 2 ^ 31.

(* ===================================================================== *)
(** ** Strings and paths *)
(* ===================================================================== *)

(** Keys of [Object.entries] over an array: the index in decimal. *)
Definition index_key (i : nat) : string := NilZero.string_of_uint (Nat.to_uint i).

Fixpoint drop_slashes (l : list ascii) : list ascii :=
  match l with
  | c :: l' => if Ascii.eqb c "/" then drop_slashes l' else l
  | [] => []
  end.

Fixpoint take_segment (l : list ascii) : list ascii :=
  match l with
  | c :: l' => if Ascii.eqb c "/" then [] else c :: take_segment l'
  | [] => []
  end.

(** On a reversed segment: what stands left of the last dot, if any. *)
Fixpoint before_last_dot (l : list ascii) : option (list ascii) :=
  match l with
  | c :: l' => if Ascii.eqb c "." then Some l' else before_last_dot l'
  | [] => None
  end.

(** [path.parse(p).name] for POSIX paths: the last segment (trailing slashes
    ignored) without its extension; a segment whose only dot is its first
    character, and the segment [..], have no extension. *)
Definition path_parse_name (p : string) : string :=
  let rseg := take_segment (drop_slashes (rev (list_ascii_of_string p))) in
  let seg := string_of_list_ascii (rev rseg) in
  match before_last_dot rseg with
  | None => seg
  | Some [] => seg
  | Some stem => if String.eqb seg ".." then seg else string_of_list_ascii (rev stem)
  end.

(* ===================================================================== *)
(** ** Data model *)
(* ===================================================================== *)

Record dims := Dims { width : Z; height : Z }.

(** [transparentBoundary]: fractions of the background's width and height. *)
Record boundary := Boundary {
  tb_left : number;
  tb_top : number;
  tb_width : number;
  tb_height : number
}.

(** One entry of [background/background-meta.json].  A field that the JSON
    entry lacks (or that is no string / no object) is [None]. *)
Record background_meta := BackgroundMeta {
  filename : string;
  composite : option string;
  orientation : option string;
  transparentBoundary : option boundary
}.

(** *** What the image engine is asked to do *)

Inductive fit := FitCover | FitFill.

Record resize_opts := Resize {
  rz_width : Z;
  rz_height : option Z;
  rz_fit : fit
}.

Inductive placement :=
| Gravity (g : string)
| TopLeft (t l : Z).

Inductive blend := BlendOver | BlendDestOver.

Record overlay := Overlay {
  ov_input : string;
  ov_resize : option resize_opts;
  ov_place : placement;
  ov_blend : blend
}.

(** A finished pipeline: [sharp(background).resize(..).composite([..])]. *)
Record render := Render {
  rd_background : string;
  rd_resize : resize_opts;
  rd_overlay : overlay
}.

(** *** Files *)

(** A raster with its size (and, for a generated one, the pipeline that
    made it), a parsed catalog, a directory, or anything else. *)
Inductive content :=
| Image (d : dims) (origin : option render)
| Catalog (metas : list background_meta)
| Directory
| Other.

Record file := File { mtime : Z; data : content }.

(** *** The world the program runs in

    [clock] is the time stamp the file system gives to the next write;
    [encoded] lists, oldest first, the paths the engine has written. *)
Record world := World {
  fs : gmap string file;
  console : list string;
  clock : Z;
  encoded : list string
}.

Definition with_console (w : world) (c : list string) : world :=
  {| fs := fs w; console := c; clock := clock w; encoded := encoded w |}.

(** *** Collaborators outside the repository *)

Class Platform := {
  (** first 32-bit draw [g(4)] of [seedrandom(seed)] *)
  seedrandom_g4 : string -> Z;
  (** [path.join(...segments)] *)
  path_join : list string -> string;
  (** [path.relative(from, to)] *)
  path_relative : string -> string -> string;
  (** [__dirname] *)
  dirname : string;
  (** [globSync(pattern)] on a given file system *)
  globSync_on : gmap string file -> string -> list string;
  (** height the engine picks for an aspect-preserving resize to a width:
      arguments are the original width, original height and new width *)
  auto_height : Z -> Z -> Z -> Z
}.

(* ===================================================================== *)
(** ** State and exceptions *)
(* ===================================================================== *)

Inductive outcome (A : Type) :=
| Ok (a : A)
| Throw (msg : string).
Arguments Ok {A} a.
Arguments Throw {A} msg.

Definition M (A : Type) : Type := world -> world * outcome A.

#[global] Instance M_ret : MRet M := fun A a w => (w, Ok a).

#[global] Instance M_bind : MBind M := fun A B f m w =>
  match m w with
  | (w', Ok a) => f a w'
  | (w', Throw e) => (w', Throw e)
  end.

Definition throw {A} (msg : string) : M A := fun w => (w, Throw msg).

Definition lift {A} (o : outcome A) : M A := fun w => (w, o).

(** [for (let x of l) body]; a [continue] is a body that returns early. *)
Fixpoint for_of {A} (l : list A) (body : A -> M unit) : M unit :=
  match l with
  | [] => mret tt
  | x :: l' => body x ;; for_of l' body
  end.

(** [Object.entries] of an array. *)
Definition entries {A} (l : list A) : list (string * A) :=
  imap (fun i x => (index_key i, x)) l.

(** *** Console and file system *)

Definition console_log (line : string) : M unit := fun w =>
  (with_console w (console w ++ [line]), Ok tt).

Definition existsSync (p : string) : M bool := fun w =>
  (w, Ok (bool_decide (is_Some (fs w !! p)))).

(** [fs.statSync(p).mtime], in milliseconds. *)
Definition statSync_mtime (p : string) : M Z := fun w =>
  match fs w !! p with
  | Some f => (w, Ok (mtime f))
  | None => (w, Throw "ENOENT: no such file or directory")
  end.

(** The prefixes of a path that end before a slash: for [/app/out/train]
    these are [/app] and [/app/out], outermost first. *)
Fixpoint prefixes (seen rest : list ascii) : list string :=
  match rest with
  | [] => []
  | c :: rest' =>
      (if Ascii.eqb c "/" then
         match seen with
         | [] => []
         | c' :: _ => if Ascii.eqb c' "/" then []
                      else [string_of_list_ascii (rev seen)]
         end
       else []) ++ prefixes (c :: seen) rest'
  end.

Definition ancestors (p : string) : list string :=
  prefixes [] (list_ascii_of_string p).

(** One step of a recursive [mkdir]: a directory that exists is kept, a
    missing one is made, and anything else in the way is an error. *)
Definition mkdir_step (error : string) (d : string) : M unit := fun w =>
  match fs w !! d with
  | None =>
      ({| fs := <[d := File (clock w) Directory]> (fs w);
          console := console w; clock := clock w + 1; encoded := encoded w |}, Ok tt)
  | Some (File _ Directory) => (w, Ok tt)
  | Some _ => (w, Throw error)
  end.

(** [fs.mkdirSync(p, {recursive: true})]: the missing ancestors are made
    first, outermost first. *)
Definition mkdirSync (p : string) : M unit :=
  for_of (ancestors p) (mkdir_step "ENOTDIR: not a directory") ;;
  mkdir_step "EEXIST: file already exists" p.

Definition globSync `{Platform} (pattern : string) : M (list string) := fun w =>
  (w, Ok (globSync_on (fs w) pattern)).

(** [JSON.parse(fs.readFileSync(p, 'utf8'))] *)
Definition readCatalog (p : string) : M (list background_meta) := fun w =>
  match fs w !! p with
  | Some (File _ (Catalog metas)) => (w, Ok metas)
  | Some _ => (w, Throw "SyntaxError: not a background catalog")
  | None => (w, Throw "ENOENT: no such file or directory")
  end.

(* ===================================================================== *)
(** ** The image engine, as far as the program relies on it *)
(* ===================================================================== *)

(** The engine opens no input of more than [0x3FFF * 0x3FFF] pixels
    (its default [limitInputPixels]). *)
Definition limitInputPixels : Z := 268402689.

(** Neither side of a JPEG exceeds 65535 pixels. *)
Definition jpeg_max_side : Z := 65535.

Definition openable (d : dims) : bool :=
  (0 <? width d) && (0 <? height d) && (width d * height d <=? limitInputPixels).

Definition encodable (d : dims) : bool :=
  (width d <=? jpeg_max_side) && (height d <=? jpeg_max_side).

(** [inner] is no wider and no taller than [outer]. *)
Definition fits (inner outer : dims) : bool :=
  (width inner <=? width outer) && (height inner <=? height outer).

(** A path decodes when it holds a raster with positive width and height,
    within the pixel limit. *)
Definition decode (w : world) (p : string) : option dims :=
  match fs w !! p with
  | Some (File _ (Image d _)) => if openable d then Some d else None
  | _ => None
  end.

(** [await sharp(p).metadata()] *)
Definition metadata (p : string) : M dims := fun w =>
  match decode w p with
  | Some d => (w, Ok d)
  | None => (w, Throw "Input file is missing or of an unsupported image format")
  end.

(** The engine accepts a size only if it is a positive integer ... *)
Definition positive_integer (what : string) (x : number) : M Z :=
  match Number.to_integer x with
  | Some z => if 0 <? z then mret z
              else throw ("Expected positive integer for " ++ what)
  | None => throw ("Expected positive integer for " ++ what)
  end.

(** ... and an offset only if it is an integer. *)
Definition integer (what : string) (x : number) : M Z :=
  match Number.to_integer x with
  | Some z => mret z
  | None => throw ("Expected integer for " ++ what)
  end.

(** Size of an image after [resize]: both sides given (cover or fill) yields
    exactly that box; the width alone leaves the height to the engine. *)
Definition resized `{Platform} (d : dims) (o : resize_opts) : dims :=
  match rz_height o with
  | Some h => Dims (rz_width o) h
  | None => Dims (rz_width o) (auto_height (width d) (height d) (rz_width o))
  end.

(** The canvas of a composite is the resized background. *)
Definition canvas `{Platform} (background : dims) (r : render) : dims :=
  resized background (rd_resize r).

(** The overlay as it is laid on the canvas: resized first, if asked. *)
Definition overlaid `{Platform} (source : dims) (o : overlay) : dims :=
  match ov_resize o with
  | Some rz => resized source rz
  | None => source
  end.

Definition is_directory (w : world) (p : string) : bool :=
  match fs w !! p with
  | Some (File _ Directory) => true
  | _ => false
  end.

Definition write (w : world) (p : string) (c : content) : world :=
  {| fs := <[p := File (clock w) c]> (fs w);
     console := console w;
     clock := clock w + 1;
     encoded := encoded w ++ [p] |}.

(** [.toFile(outputFile)]: run the pipeline and encode the result as a JPEG.
    Both inputs must decode, the overlay must be within the pixel limit and
    must not exceed the canvas on either side, the canvas must be within
    the limits of the format, and the target must not be a directory. *)
Definition toFile `{Platform} (r : render) (outputFile : string) : M unit := fun w =>
  match decode w (rd_background r), decode w (ov_input (rd_overlay r)) with
  | Some bg, Some ov =>
      if negb (openable (overlaid ov (rd_overlay r)))
      then (w, Throw "Input image exceeds pixel limit")
      else if negb (fits (overlaid ov (rd_overlay r)) (canvas bg r))
      then (w, Throw "Image to composite must have same dimensions or smaller")
      else if negb (encodable (canvas bg r))
      then (w, Throw "Processed image is too large for the JPEG format")
      else if is_directory w outputFile
      then (w, Throw "EISDIR: illegal operation on a directory")
      else (write w outputFile (Image (canvas bg r) (Some r)), Ok tt)
  | _, _ => (w, Throw "Input file is missing or of an unsupported image format")
  end.

(** A write that was started and is not awaited. *)
Record launched := Launched { job_render : render; job_file : string }.

(** The completion of such a write.  Nobody handles its rejection, and Node
    treats a rejection without a handler as an uncaught exception: a
    failure ends the process with the error of the engine. *)
Definition in_flight `{Platform} (job : launched) : M unit :=
  toFile (job_render job) (job_file job).

(* ===================================================================== *)
(** ** The compositors *)
(* ===================================================================== *)

Section Program.
Context `{Platform}.

(** [Math.floor(Math.max(baseMeta.width, baseMeta.height) * 1.2)] *)
Definition center_target (baseMeta : dims) : number :=
  Number.floor (Number.mul (Number.of_Z (Z.max (width baseMeta) (height baseMeta)))
                           (Number.lit 12 10)).

Definition centerImage (baseFile backgroundFile outputFile : string) : M unit :=
  baseMeta ← metadata baseFile;
  target ← positive_integer "width" (center_target baseMeta);
  toFile {| rd_background := backgroundFile;
            rd_resize := Resize target None FitCover;
            rd_overlay := {| ov_input := baseFile;
                             ov_resize := None;
                             ov_place := Gravity "center";
                             ov_blend := BlendOver |} |}
         outputFile.

(** [Math.floor(baseMeta.width * transparentBoundary.height / transparentBoundary.width)] *)
Definition base_height (baseWidth : Z) (tb : boundary) : number :=
  Number.floor (Number.div (Number.mul (Number.of_Z baseWidth) (tb_height tb))
                           (tb_width tb)).

(** [baseMeta.width / (backgroundMeta.width * transparentBoundary.width)] *)
Definition backgroundScale (baseWidth backgroundWidth : Z) (tb : boundary) : number :=
  Number.div (Number.of_Z baseWidth)
             (Number.mul (Number.of_Z backgroundWidth) (tb_width tb)).

(** [Math.floor(side * backgroundScale)] *)
Definition scaled (side : Z) (scale : number) : number :=
  Number.floor (Number.mul (Number.of_Z side) scale).

(** [Math.floor(fraction * side)] *)
Definition offset (fraction : number) (side : Z) : number :=
  Number.floor (Number.mul fraction (Number.of_Z side)).

Definition placeOnTransparent (baseFile backgroundFile outputFile : string)
    (transparentBoundary : option boundary) : M launched :=
  baseMeta ← metadata baseFile;
  tb ← match transparentBoundary with
       | Some tb => mret tb
       | None => throw "TypeError: Cannot read properties of undefined"
       end;
  h ← positive_integer "height" (base_height (width baseMeta) tb);
  let baseInfo := Dims (width baseMeta) h in
  backgroundMeta ← metadata backgroundFile;
  let scale := backgroundScale (width baseInfo) (width backgroundMeta) tb in
  bw ← positive_integer "width" (scaled (width backgroundMeta) scale);
  bh ← positive_integer "height" (scaled (height backgroundMeta) scale);
  let backgroundInfo := Dims bw bh in
  l ← integer "left" (offset (tb_left tb) (width backgroundInfo));
  t ← integer "top" (offset (tb_top tb) (height backgroundInfo));
  mret (Launched {| rd_background := backgroundFile;
                    rd_resize := Resize bw (Some bh) FitCover;
                    rd_overlay := {| ov_input := baseFile;
                                     ov_resize := Some (Resize (width baseMeta) (Some h) FitFill);
                                     ov_place := TopLeft t l;
                                     ov_blend := BlendDestOver |} |}
                 outputFile).

(* ===================================================================== *)
(** ** The batch driver *)
(* ===================================================================== *)

Record options := Options { type : string; output : string }.

(** [`${path.parse(baseFile).name}_${i}.jpg`] *)
Definition outputFileName (baseFile i : string) : string :=
  path_parse_name baseFile ++ "_" ++ i ++ ".jpg".

(** [seedrandom(name).int32()] is [g(4) | 0]. *)
Definition int32 (name : string) : Z := to_int32 (seedrandom_g4 name).

(** [Math.abs(seedrandom(outputFileName).int32())] *)
Definition seed (name : string) : Z := Z.abs (int32 name).

(** [seed % 10 / 10] *)
Definition split_value (name : string) : number :=
  Number.div (Number.of_Z (Z.rem (seed name) 10)) (Number.of_Z 10).

(** [(seed % 10 / 10 < trainRatio) ? 'train' : 'test'] *)
Definition subdir (name : string) (trainRatio : number) : string :=
  if Number.ltb (split_value name) trainRatio then "train" else "test".

Definition outputFile (options : options) (trainRatio : number) (baseFile i : string) : string :=
  let name := outputFileName baseFile i in
  path_join [dirname; output options; subdir name trainRatio; name].

Definition backgroundFile (backgroundMeta : background_meta) : string :=
  path_join [dirname; "background"; filename backgroundMeta].

(** [width > height ? 'landscape' : 'portrait'] *)
Definition baseOrientation (d : dims) : string :=
  if height d <? width d then "landscape" else "portrait".

Definition is_mode (backgroundMeta : background_meta) (mode : string) : bool :=
  bool_decide (composite backgroundMeta = Some mode).

(** [fs.existsSync(outputFile) &&
     fs.statSync(baseFile).mtime <= fs.statSync(outputFile).mtime] *)
Definition up_to_date (baseFile out : string) : M bool :=
  present ← existsSync out;
  if (present : bool) then
    b ← statSync_mtime baseFile;
    o ← statSync_mtime out;
    mret (b <=? o)
  else mret false.

(** [`Skip ${path.relative(__dirname, outputFile)} because it already exists`] *)
Definition skip_line (out : string) : string :=
  "Skip " ++ path_relative dirname out ++ " because it already exists".

(** [`Generate ${path.relative(__dirname, outputFile)}`] *)
Definition generate_line (out : string) : string :=
  "Generate " ++ path_relative dirname out.

(** Lines 46-58: dispatch on the composite mode, then report.  The write
    that [placeOnTransparent] has started goes on while the loop is
    suspended at line 56; the loop does not wait for it, and learns of its
    failure only as the end of the process. *)
Definition compose_pair (baseFile : string) (backgroundMeta : background_meta)
    (out : string) : M unit :=
  if is_mode backgroundMeta "center" then
    centerImage baseFile (backgroundFile backgroundMeta) out ;;
    console_log (generate_line out)
  else if is_mode backgroundMeta "embedded" then
    baseMeta ← metadata baseFile;
    if bool_decide (Some (baseOrientation baseMeta) ≠ orientation backgroundMeta)
    then mret tt
    else
      job ← placeOnTransparent baseFile (backgroundFile backgroundMeta) out
                               (transparentBoundary backgroundMeta);
      in_flight job ;;
      console_log (generate_line out)
  else console_log (generate_line out).

(** The body of the inner loop, for one base file and one catalog entry. *)
Definition generate_pair (options : options) (trainRatio : number)
    (baseFile : string) (entry : string * background_meta) : M unit :=
  let out := outputFile options trainRatio baseFile (fst entry) in
  skip ← up_to_date baseFile out;
  if (skip : bool) then console_log (skip_line out)
  else compose_pair baseFile (snd entry) out.

Definition pattern (options : options) : string :=
  "bases/" ++ type options ++ "/*.{png,jpg}".

Definition catalog_path : string := "background/background-meta.json".

Definition generate (options : options) (trainRatio : number) : M unit :=
  baseFiles ← globSync (pattern options);
  if bool_decide (length baseFiles = 0%nat) then
    console_log ("Base image not found in " ++ pattern options ++ ".")
  else
    backgroundMetas ← readCatalog catalog_path;
    for_of baseFiles (fun baseFile =>
      for_of (entries backgroundMetas) (generate_pair options trainRatio baseFile)).

(* ===================================================================== *)
(** ** The command line and the top level of the script *)
(* ===================================================================== *)

(** [.choices([...])] of the [--type] option. *)
Definition choices : list string :=
  ["cashcard"; "driverslicense"; "driverslicense_backside";
   "health_insurance_card"; "mynumber"; "sample"].

(** The document types the usage string and the JSDoc of [generate] name. *)
Definition documented_types : list string :=
  ["cashcard"; "driverslicense"; "driverslicense_backside";
   "health_insurance_card"; "mynumber"].

(** The values given to [-t/--type] and [-o/--output], if any. *)
Record argv := Argv { arg_type : option string; arg_output : option string }.

(** [program.addOption(..choices..makeOptionMandatory()).requiredOption(..)
     .parse().opts()]: an invalid command line ends the process. *)
Definition parse (a : argv) : outcome options :=
  match arg_type a with
  | Some t =>
      if bool_decide (t ∈ choices) then
        match arg_output a with
        | Some o => Ok (Options t o)
        | None => Throw "error: required option '-o, --output <string>' not specified"
        end
      else Throw "error: option '-t, --type' argument is invalid"
  | None => Throw "error: required option '-t, --type' not specified"
  end.

(** Default value of [trainRatio]. *)
Definition default_trainRatio : number := Number.lit 8 10.

Definition main (a : argv) : M unit :=
  options ← lift (parse a);
  for_of [path_join [dirname; output options];
          path_join [dirname; output options; "train"];
          path_join [dirname; output options; "test"]]
         (fun outputDir =>
            present ← existsSync outputDir;
            if (present : bool) then mret tt else mkdirSync outputDir) ;;
  generate options default_trainRatio.

End Program.

(* ===================================================================== *)
(** ** Vocabulary of the statements *)
(* ===================================================================== *)

(** The output of a pair is current: it exists and the base file is not
    newer than it. *)
Definition current (w : world) (baseFile out : string) : bool :=
  match fs w !! out, fs w !! baseFile with
  | Some fo, Some fb => mtime fb <=? mtime fo
  | _, _ => false
  end.

(** Two worlds that differ at most in what was printed. *)
Definition same_files (w w' : world) : Prop :=
  fs w' = fs w /\ clock w' = clock w /\ encoded w' = encoded w.

(** The file the engine leaves behind for a render started at [w]. *)
Definition rendered `{Platform} (w : world) (out : string) (background : dims)
    (r : render) : world :=
  write w out (Image (canvas background r) (Some r)).

(** The render requested by [centerImage]. *)
Definition center_render (baseFile backgroundFile : string) (target : Z) : render :=
  {| rd_background := backgroundFile;
     rd_resize := Resize target None FitCover;
     rd_overlay := Overlay baseFile None (Gravity "center") BlendOver |}.

(** The render requested by [placeOnTransparent]. *)
Definition embedded_render (baseFile backgroundFile : string)
    (baseWidth h bw bh t l : Z) : render :=
  {| rd_background := backgroundFile;
     rd_resize := Resize bw (Some bh) FitCover;
     rd_overlay := Overlay baseFile (Some (Resize baseWidth (Some h) FitFill))
                           (TopLeft t l) BlendDestOver |}.

(** The longer side of an image. *)
Definition longer_side (d : dims) : Z := Z.max (width d) (height d).

(** What the spec expects of the longer side after [centerImage]:
    [round(max(baseW, baseH) * 1.2)]. *)
Definition rounded_target (base : dims) : number :=
  Number.round (Number.mul (Number.of_Z (Z.max (width base) (height base)))
                           (Number.lit 12 10)).

(** An engine that keeps the aspect ratio up to rounding: resized to the
    width [w], an image of [W] by [H] pixels gets a height of at least one
    pixel that is less than a pixel away from [H * w / W]. *)
Definition keeps_ratio `{Platform} : Prop :=
  forall W H w, 0 < W -> 0 < H -> 0 < w ->
    0 < auto_height W H w /\ Z.abs (auto_height W H w * W - H * w) < W.

(** The ways one pair can end, with the world it leaves behind. *)
Inductive pair_effect `{Platform} (w : world) (baseFile : string)
    (backgroundMeta : background_meta) (out : string) : world -> outcome unit -> Prop :=
| effect_skip :
    current w baseFile out = true ->
    pair_effect w baseFile backgroundMeta out
                (with_console w (console w ++ [skip_line out])) (Ok tt)
| effect_mismatch (base : dims) :
    current w baseFile out = false ->
    composite backgroundMeta = Some "embedded" ->
    decode w baseFile = Some base ->
    Some (baseOrientation base) <> orientation backgroundMeta ->
    pair_effect w baseFile backgroundMeta out w (Ok tt)
| effect_no_compositor :
    current w baseFile out = false ->
    composite backgroundMeta <> Some "center" ->
    composite backgroundMeta <> Some "embedded" ->
    pair_effect w baseFile backgroundMeta out
                (with_console w (console w ++ [generate_line out])) (Ok tt)
| effect_write (base background : dims) (r : render) :
    current w baseFile out = false ->
    decode w baseFile = Some base ->
    is_directory w out = false ->
    pair_effect w baseFile backgroundMeta out
                (with_console (rendered w out background r)
                              (console w ++ [generate_line out])) (Ok tt)
| effect_throw (msg : string) :
    pair_effect w baseFile backgroundMeta out w (Throw msg).

(** A pair that a run leaves alone: its output is current, or its mode names
    no compositor, or it is embedded with the wrong orientation. *)
Definition settled `{Platform} (w : world) (baseFile : string)
    (backgroundMeta : background_meta) (out : string) : Prop :=
  current w baseFile out = true \/
  (composite backgroundMeta <> Some "center" /\
   composite backgroundMeta <> Some "embedded") \/
  (composite backgroundMeta = Some "embedded" /\
   exists base, decode w baseFile = Some base /\
                Some (baseOrientation base) <> orientation backgroundMeta).

(** Every base file exists and is not newer than the clock. *)
Definition bases_in_time (w : world) (bases : list string) : bool :=
  forallb (fun b => match fs w !! b with
                    | Some f => mtime f <=? clock w
                    | None => false
                    end) bases.

(** No output path of the run is one of its base files. *)
Definition outputs_apart `{Platform} (options : options) (trainRatio : number)
    (bases : list string) (n : nat) : bool :=
  forallb (fun b =>
    forallb (fun i => negb (bool_decide
                              (outputFile options trainRatio b (index_key i) ∈ bases)))
            (seq 0 n)) bases.

(** Every file of [B] exists and is not newer than the clock. *)
Definition protected (B : list string) (w : world) : Prop :=
  forall b, b ∈ B -> exists fb, fs w !! b = Some fb /\ mtime fb <= clock w.

(** The nested loops of [generate] visit these pairs, in this order. *)
Definition pairs_of {A B} (bases : list A) (ents : list B) : list (A * B) :=
  b ← bases; (fun e => (b, e)) <$> ents.

(** An action whose behaviour does not depend on what was printed before:
    run after any console contents [c], it does the same and prints the
    same lines. *)
Definition oblivious {A} (a : M A) : Prop :=
  forall w, exists added,
    console (fst (a w)) = (console w ++ added)%list /\
    forall c, a (with_console w c) = (with_console (fst (a w)) (c ++ added), snd (a w)).

(** The directories the script makes sure of before it generates. *)
Definition outputDirs `{Platform} (o : options) : list string :=
  [path_join [dirname; output o];
   path_join [dirname; output o; "train"];
   path_join [dirname; output o; "test"]].

(** A path with its ancestors, outermost first. *)
Definition lineage (p : string) : list string := ancestors p ++ [p].

(** The paths of [dirs] with all their ancestors. *)
Definition lineages (dirs : list string) : list string :=
  d ← dirs; lineage d.

(** Something other than a directory stands at [q]. *)
Definition obstructed (w : world) (q : string) : Prop :=
  exists f, fs w !! q = Some f /\ data f <> Directory.

(** One of [dirs] is missing and cannot be made: something other than a
    directory stands at one of its ancestors. *)
Definition blocked (w : world) (dirs : list string) : Prop :=
  exists d q, d ∈ dirs /\ fs w !! d = None /\ q ∈ ancestors d /\ obstructed w q.

(** From [w] to [w'] only directories were made, and only at paths of [S]:
    whatever a path held it still holds, a path that was free and is taken
    now is in [S] and holds a directory made since, and nothing was printed
    or encoded. *)
Definition grows (S : list string) (w w' : world) : Prop :=
  (forall p f, fs w !! p = Some f -> fs w' !! p = Some f) /\
  (forall p, fs w !! p = None -> is_Some (fs w' !! p) ->
             p ∈ S /\ exists t, fs w' !! p = Some (File t Directory) /\ clock w <= t) /\
  console w' = console w /\ encoded w' = encoded w /\ clock w <= clock w'.

(** The character [c] does not occur in [s]. *)
Definition free_of (c : ascii) (s : string) : bool :=
  forallb (fun x => negb (Ascii.eqb x c)) (list_ascii_of_string s).

(** From [w] to [w'] exactly the paths of [l] were encoded, in this order:
    the clock advanced once for each, the console only grew, every other
    path holds what it held, and each path of [l] holds a generated image
    stamped during the step. *)
Definition changes_only (w w' : world) (l : list string) : Prop :=
  encoded w' = (encoded w ++ l)%list /\
  clock w' = clock w + Z.of_nat (length l) /\
  (exists lines, console w' = (console w ++ lines)%list) /\
  (forall p, p ∉ l -> fs w' !! p = fs w !! p) /\
  (forall p, p ∈ l ->
     exists t d r, fs w' !! p = Some (File t (Image d (Some r))) /\
                   clock w <= t < clock w').

(** The catalog a world holds, if it holds one. *)
Definition catalog_of (w : world) : option (list background_meta) :=
  match fs w !! catalog_path with
  | Some (File _ (Catalog metas)) => Some metas
  | _ => None
  end.

(* ===================================================================== *)
(** ** A concrete platform and concrete worlds, used to run the program *)
(* ===================================================================== *)

Module Demo.

Definition join (segments : list string) : string := String.concat "/" segments.

Definition relative (from to : string) : string :=
  let p := from ++ "/" in
  if String.prefix p to
  then substring (String.length p) (String.length to - String.length p) to
  else to.

(** A stand-in for the generator: any function of the seed string will do. *)
Definition g4 (s : string) : Z :=
  (fold_right (fun c acc => Z.of_nat (nat_of_ascii c) + 31 * acc) 7
              (list_ascii_of_string s) * 2654435761) mod 2 ^ 32.

Definition has_suffix (suffix s : string) : bool :=
  String.prefix (string_of_list_ascii (rev (list_ascii_of_string suffix)))
                (string_of_list_ascii (rev (list_ascii_of_string s))).

(** [dir/*.{png,jpg}]: a visible file directly inside [dir]. *)
Definition matches (pattern p : string) : bool :=
  let dir := substring 0 (String.length pattern - 11) pattern in
  let rest := substring (String.length dir) (String.length p - String.length dir) p in
  String.prefix dir p
  && negb (String.prefix "." rest)
  && forallb (fun c => negb (Ascii.eqb c "/")) (list_ascii_of_string rest)
  && (4 <? String.length rest)%nat
  && (has_suffix ".png" rest || has_suffix ".jpg" rest).

Definition glob (files : gmap string file) (pattern : string) : list string :=
  List.filter (matches pattern) (map fst (map_to_list files)).

(** A stand-in for the engine's choice of height: the exact quotient
    [H * w / W] rounded to the nearest integer, a tie downwards, and never
    less than one pixel. *)
Definition nearest_height (W H w : Z) : Z :=
  Z.max 1 ((2 * H * w + W - 1) / (2 * W)).

Definition platform : Platform :=
  {| seedrandom_g4 := g4;
     path_join := join;
     path_relative := relative;
     dirname := "/app";
     globSync_on := glob;
     auto_height := nearest_height |}.

Definition raster (w h t : Z) : file := File t (Image (Dims w h) None).

Definition center_entry (f : string) : background_meta :=
  BackgroundMeta f (Some "center") None None.

(** The boundary of the embedded-compose example:
    [{left: 0.1, top: 0.1, width: 0.5, height: 0.3}]. *)
Definition cutout : boundary :=
  Boundary (Number.lit 1 10) (Number.lit 1 10) (Number.lit 5 10) (Number.lit 3 10).

Definition embedded_entry (f o : string) : background_meta :=
  BackgroundMeta f (Some "embedded") (Some o) (Some cutout).

Definition opts : options := Options "driverslicense" "out".

Definition world_of (files : list (string * file)) (now : Z) : world :=
  World (list_to_map files) [] now [].

(** One landscape base, three backgrounds, written long before [now]. *)
Definition catalog3 : list background_meta :=
  [center_entry "wood.jpg"; embedded_entry "frame.png" "landscape";
   embedded_entry "phone.png" "portrait"].

Definition files3 : list (string * file) :=
  [("bases/driverslicense/license_01.png", raster 400 200 50);
   ("/app/background/wood.jpg", raster 1000 800 10);
   ("/app/background/frame.png", raster 1000 800 10);
   ("/app/background/phone.png", raster 800 1000 10);
   (catalog_path, File 10 (Catalog catalog3))].

Definition w3 : world := world_of files3 1000.

(** The same inputs, but the base file carries a time stamp later than the
    clock of the run (as after [touch -d] with a future date). *)
Definition files_future : list (string * file) :=
  [("bases/driverslicense/license_01.png", raster 400 200 5000);
   ("/app/background/wood.jpg", raster 1000 800 10);
   (catalog_path, File 10 (Catalog [center_entry "wood.jpg"]))].

Definition w_future : world := world_of files_future 1000.

(** A catalog entry whose mode is neither of the two known ones. *)
Definition files_odd : list (string * file) :=
  [("bases/driverslicense/license_01.png", raster 400 200 50);
   (catalog_path, File 10 (Catalog [BackgroundMeta "wood.jpg" (Some "tile") None None]))].

Definition w_odd : world := world_of files_odd 1000.

Definition w_empty : world := world_of [] 1000.

(** Nothing but the directory of the script; and the same with a regular
    file where the output directory is to be. *)
Definition w_home : world := world_of [("/app", File 0 Directory)] 1000.

(** The license before a banner that is too low for it. *)
Definition w_banner : world :=
  world_of [("bases/driverslicense/license_01.png", raster 400 200 50);
            ("/app/background/banner.png", raster 2000 500 10)] 1000.

Definition w_blocked : world :=
  world_of [("/app", File 0 Directory); ("/app/out", File 5 Other)] 1000.

(** A square base before a portrait background, a strip before a
    landscape one, and an upright card that is taller than the canvas the
    wood background is resized to. *)
Definition files_shapes : list (string * file) :=
  [("bases/driverslicense/square.png", raster 10 10 50);
   ("bases/driverslicense/strip.png", raster 3 1 50);
   ("bases/driverslicense/upright.png", raster 200 400 50);
   ("/app/background/tall.jpg", raster 100 200 10);
   ("/app/background/wide.jpg", raster 300 100 10);
   ("/app/background/wood.jpg", raster 1000 800 10)].

Definition w_shapes : world := world_of files_shapes 1000.

Definition license : string := "bases/driverslicense/license_01.png".

(** Two base files with the same stem. *)
Definition files_twins : list (string * file) :=
  [("bases/driverslicense/card.png", raster 400 200 50);
   ("bases/driverslicense/card.jpg", raster 300 200 60);
   ("/app/background/wood.jpg", raster 1000 800 10);
   (catalog_path, File 10 (Catalog [center_entry "wood.jpg"]))].

Definition w_twins : world := world_of files_twins 1000.

(** A catalog whose second background file does not exist. *)
Definition files_broken : list (string * file) :=
  [(license, raster 400 200 50);
   ("/app/background/wood.jpg", raster 1000 800 10);
   (catalog_path,
    File 10 (Catalog [center_entry "wood.jpg"; center_entry "gone.jpg";
                      center_entry "wood.jpg"]))].

Definition w_broken : world := world_of files_broken 1000.

(** A base file, but no catalog. *)
Definition w_no_catalog : world := world_of [(license, raster 400 200 50)] 1000.

(** An embedded entry that lacks its boundary, and one whose cutout has
    width zero. *)
Definition no_boundary_entry : background_meta :=
  BackgroundMeta "frame.png" (Some "embedded") (Some "landscape") None.

Definition flat_cutout : boundary :=
  Boundary (Number.lit 1 10) (Number.lit 1 10) (Number.of_Z 0) (Number.lit 3 10).

(** An embedded entry that declares no orientation. *)
Definition undeclared_entry : background_meta :=
  BackgroundMeta "frame.png" (Some "embedded") None (Some cutout).

(** The license, regenerated once, then touched. *)
Definition files_stale : list (string * file) :=
  [(license, raster 400 200 900);
   ("/app/background/wood.jpg", raster 1000 800 10);
   ("/app/out/train/license_01_0.jpg", raster 480 384 500);
   (catalog_path, File 10 (Catalog [center_entry "wood.jpg"]))].

Definition w_stale : world := world_of files_stale 1000.

End Demo.

(* ===================================================================== *)
(** ** Basic facts about the embedding *)
(* ===================================================================== *)

Open Scope list_scope.
Open Scope Z_scope.

Ltac unfold_monad :=
  unfold mbind, M_bind, mret, M_ret, throw, lift in *.

Ltac unfold_io :=
  unfold console_log, existsSync, statSync_mtime, metadata,
         positive_integer, integer, toFile in *.

Lemma to_int32_range (z : Z) : - 2 ^ 31 <= to_int32 z < 2 ^ 31.
Proof.
  unfold to_int32.
  pose proof (Z.mod_pos_bound (z + 2 ^ 31) (2 ^ 32) ltac:(lia)). lia.
Qed.

Lemma to_int32_fixes (z : Z) : - 2 ^ 31 <= z < 2 ^ 31 -> to_int32 z = z.
Proof.
  intros Hz. unfold to_int32. rewrite Z.mod_small; lia.
Qed.

Lemma digit_cases (k : Z) :
  0 <= k <= 9 ->
  k = 0 \/ k = 1 \/ k = 2 \/ k = 3 \/ k = 4 \/ k = 5 \/ k = 6 \/ k = 7 \/ k = 8 \/ k = 9.
Proof. lia. Qed.

(** A tenth of a decimal digit, as a double, lies in [0, 1). *)
Lemma tenth_in_unit (k : Z) :
  0 <= k <= 9 ->
  Number.leb (Number.of_Z 0) (Number.lit k 10) = true /\
  Number.ltb (Number.lit k 10) (Number.of_Z 1) = true.
Proof.
  intros Hk.
  destruct (digit_cases k Hk) as [-> | [-> | [-> | [-> | [-> | [-> | [-> | [-> | [-> | ->]]]]]]]]];
    vm_compute; split; reflexivity.
Qed.

(** Against the default ratio 0.8, digits 0 to 7 go to [train]. *)
Lemma tenth_below_default (k : Z) :
  0 <= k <= 9 ->
  Number.ltb (Number.lit k 10) default_trainRatio = (k <? 8).
Proof.
  intros Hk.
  destruct (digit_cases k Hk) as [-> | [-> | [-> | [-> | [-> | [-> | [-> | [-> | [-> | ->]]]]]]]]];
    vm_compute; reflexivity.
Qed.

Section SplitAssigner.
Context `{Platform}.

Lemma seed_digit (name : string) : 0 <= Z.rem (seed name) 10 <= 9.
Proof.
  unfold seed.
  pose proof (Z.abs_nonneg (int32 name)).
  pose proof (Z.rem_bound_pos (Z.abs (int32 name)) 10 ltac:(lia) ltac:(lia)). lia.
Qed.

Lemma subdir_train_or_test (name : string) (trainRatio : number) :
  subdir name trainRatio = "train" \/ subdir name trainRatio = "test".
Proof. unfold subdir. destruct (Number.ltb _ _); auto. Qed.

(** C1. The split assigner: the draw is a signed 32-bit integer obtained from
    the generator seeded with the name; its absolute value modulo 10, divided
    by 10, is a double in [0, 1); the bucket is [train] when that double is
    strictly below the ratio and [test] otherwise.  This holds for every
    ratio, in particular for those in (0, 1). *)
Theorem split_assigner_law (name : string) (trainRatio : number) :
  let draw := to_int32 (seedrandom_g4 name) in
  let digit := Z.abs draw mod 10 in
  - 2 ^ 31 <= draw < 2 ^ 31 /\
  0 <= digit <= 9 /\
  split_value name = Number.div (Number.of_Z digit) (Number.of_Z 10) /\
  Number.leb (Number.of_Z 0) (split_value name) = true /\
  Number.ltb (split_value name) (Number.of_Z 1) = true /\
  subdir name trainRatio
  = (if Number.ltb (split_value name) trainRatio then "train" else "test").
Proof.
  intros draw digit.
  assert (Hrem : Z.rem (seed name) 10 = digit).
  { unfold seed, int32, digit, draw. apply Z.rem_mod_nonneg; [apply Z.abs_nonneg | lia]. }
  assert (Hd : 0 <= digit <= 9) by (rewrite <- Hrem; apply seed_digit).
  assert (Hv : split_value name = Number.lit digit 10).
  { unfold split_value, Number.lit. now rewrite Hrem. }
  split; [apply to_int32_range |].
  split; [exact Hd |].
  split; [exact Hv |].
  rewrite Hv. destruct (tenth_in_unit digit Hd) as [Hlo Hhi].
  split; [exact Hlo |]. split; [exact Hhi |].
  unfold subdir. now rewrite Hv.
Qed.

(** With the default ratio the split is 8 : 2 on the last decimal digit. *)
Lemma default_split (name : string) :
  subdir name default_trainRatio = if Z.abs (int32 name) mod 10 <? 8 then "train" else "test".
Proof.
  unfold subdir, split_value.
  rewrite <- (Z.rem_mod_nonneg (Z.abs (int32 name)) 10) by (try apply Z.abs_nonneg; lia).
  fold (seed name). fold (Number.lit (Z.rem (seed name) 10) 10).
  now rewrite tenth_below_default by apply seed_digit.
Qed.

End SplitAssigner.

(* ===================================================================== *)
(** ** The compositors *)
(* ===================================================================== *)

Section Compositors.
Context `{Platform}.

Lemma metadata_run (w : world) (p : string) (d : dims) :
  decode w p = Some d -> metadata p w = (w, Ok d).
Proof. intros Hd. unfold metadata. now rewrite Hd. Qed.

Lemma positive_integer_run (w : world) (what : string) (x : number) (z : Z) :
  Number.to_integer x = Some z -> 0 < z -> positive_integer what x w = (w, Ok z).
Proof.
  intros Hx Hz. unfold positive_integer. rewrite Hx.
  destruct (0 <? z) eqn:E; [reflexivity | lia].
Qed.

Lemma integer_run (w : world) (what : string) (x : number) (z : Z) :
  Number.to_integer x = Some z -> integer what x w = (w, Ok z).
Proof. intros Hx. unfold integer. now rewrite Hx. Qed.

Lemma toFile_run (w : world) (r : render) (out : string) (bg ov : dims) :
  decode w (rd_background r) = Some bg ->
  decode w (ov_input (rd_overlay r)) = Some ov ->
  openable (overlaid ov (rd_overlay r)) = true ->
  fits (overlaid ov (rd_overlay r)) (canvas bg r) = true ->
  encodable (canvas bg r) = true ->
  is_directory w out = false ->
  toFile r out w = (rendered w out bg r, Ok tt).
Proof.
  intros Hb Ho Hop Hfit Hen Hd. unfold toFile.
  now rewrite Hb, Ho, Hop, Hfit, Hen, Hd.
Qed.

(** The engine either refuses and leaves the world alone, or writes the
    canvas; it writes only what it accepts. *)
Lemma toFile_cases (w : world) (r : render) (out : string) :
  (exists msg, toFile r out w = (w, Throw msg)) \/
  (exists bg ov,
     decode w (rd_background r) = Some bg /\
     decode w (ov_input (rd_overlay r)) = Some ov /\
     openable (overlaid ov (rd_overlay r)) = true /\
     fits (overlaid ov (rd_overlay r)) (canvas bg r) = true /\
     encodable (canvas bg r) = true /\
     is_directory w out = false /\
     toFile r out w = (rendered w out bg r, Ok tt)).
Proof.
  unfold toFile.
  destruct (decode w (rd_background r)) as [bg|]; [| eauto].
  destruct (decode w (ov_input (rd_overlay r))) as [ov|]; [| eauto].
  destruct (openable (overlaid ov (rd_overlay r))) eqn:Hop; cbn [negb]; [| eauto].
  destruct (fits (overlaid ov (rd_overlay r)) (canvas bg r)) eqn:Hfit; cbn [negb]; [| eauto].
  destruct (encodable (canvas bg r)) eqn:Hen; cbn [negb]; [| eauto].
  destruct (is_directory w out) eqn:Hd; [eauto |].
  right. exists bg, ov. repeat split; assumption.
Qed.

Lemma toFile_misfit (w : world) (r : render) (out : string) (bg ov : dims) :
  decode w (rd_background r) = Some bg ->
  decode w (ov_input (rd_overlay r)) = Some ov ->
  fits (overlaid ov (rd_overlay r)) (canvas bg r) = false ->
  exists msg, toFile r out w = (w, Throw msg).
Proof.
  intros Hb Ho Hfit. unfold toFile. rewrite Hb, Ho, Hfit.
  destruct (openable _); simpl; eauto.
Qed.

Lemma rendered_lookup (w : world) (out : string) (bg : dims) (r : render) :
  fs (rendered w out bg r) !! out = Some (File (clock w) (Image (canvas bg r) (Some r))).
Proof. unfold rendered, write. simpl. apply lookup_insert_eq. Qed.

Lemma decode_openable (w : world) (p : string) (d : dims) :
  decode w p = Some d -> openable d = true.
Proof.
  unfold decode. destruct (fs w !! p) as [[? []]|]; try discriminate.
  destruct (openable d0) eqn:E; [now intros [= <-] | discriminate].
Qed.

(** [centerImage] with its three steps spelled out. *)
Lemma centerImage_unfold (w : world) (b bgf out : string) (base : dims) (target : Z) :
  decode w b = Some base ->
  Number.to_integer (center_target base) = Some target ->
  0 < target ->
  centerImage b bgf out w = toFile (center_render b bgf target) out w.
Proof.
  intros Hb Ht Hpos. unfold centerImage. unfold_monad.
  rewrite (metadata_run _ _ _ Hb).
  now rewrite (positive_integer_run _ _ _ _ Ht Hpos).
Qed.

(** When it returns normally, [centerImage] has written what it was asked
    for, and the engine had accepted it. *)
Lemma centerImage_ok (w w' : world) (b bgf out : string) :
  centerImage b bgf out w = (w', Ok tt) ->
  exists base bg target,
    decode w b = Some base /\ decode w bgf = Some bg /\
    Number.to_integer (center_target base) = Some target /\ 0 < target /\
    fits base (canvas bg (center_render b bgf target)) = true /\
    encodable (canvas bg (center_render b bgf target)) = true /\
    is_directory w out = false /\
    w' = rendered w out bg (center_render b bgf target).
Proof.
  unfold centerImage. unfold_monad. unfold metadata, positive_integer.
  destruct (decode w b) as [base|] eqn:Hb; [| discriminate].
  destruct (Number.to_integer (center_target base)) as [z|] eqn:Ht; [| discriminate].
  unfold_monad. destruct (0 <? z) eqn:Hz; [| discriminate].
  apply Z.ltb_lt in Hz.
  fold (center_render b bgf z).
  destruct (toFile_cases w (center_render b bgf z) out)
    as [[msg ->] | (bg & ov & Hbg & Hov & _ & Hfit & Hen & Hd & ->)]; [discriminate |].
  intros [= <-].
  cbn [center_render rd_background rd_overlay ov_input] in Hbg, Hov.
  rewrite Hb in Hov. injection Hov as <-.
  exists base, bg, z. repeat split; assumption.
Qed.


Lemma placeOnTransparent_run (w : world) (baseFile backgroundFile out : string)
    (base background : dims) (tb : boundary) (h bw bh t l : Z) :
  decode w baseFile = Some base ->
  decode w backgroundFile = Some background ->
  let s := backgroundScale (width base) (width background) tb in
  Number.to_integer (base_height (width base) tb) = Some h -> 0 < h ->
  Number.to_integer (scaled (width background) s) = Some bw -> 0 < bw ->
  Number.to_integer (scaled (height background) s) = Some bh -> 0 < bh ->
  Number.to_integer (offset (tb_top tb) bh) = Some t ->
  Number.to_integer (offset (tb_left tb) bw) = Some l ->
  placeOnTransparent baseFile backgroundFile out (Some tb) w
  = (w, Ok (Launched (embedded_render baseFile backgroundFile (width base) h bw bh t l)
                     out)).
Proof.
  intros Hbase Hbg s Hh Hhpos Hbw Hbwpos Hbh Hbhpos Ht Hl.
  unfold placeOnTransparent. unfold_monad.
  rewrite (metadata_run _ _ _ Hbase).
  rewrite (positive_integer_run _ _ _ _ Hh Hhpos).
  rewrite (metadata_run _ _ _ Hbg). cbn [width height].
  fold s.
  rewrite (positive_integer_run _ _ _ _ Hbw Hbwpos).
  rewrite (positive_integer_run _ _ _ _ Hbh Hbhpos).
  rewrite (integer_run _ _ _ _ Hl), (integer_run _ _ _ _ Ht).
  reflexivity.
Qed.


End Compositors.

(* ===================================================================== *)
(** ** One pair of the batch *)
(* ===================================================================== *)

Section Pair.
Context `{Platform}.

Lemma with_console_same (w : world) (c : list string) : same_files w (with_console w c).
Proof. repeat split. Qed.

Lemma with_console_id (w : world) : with_console w (console w) = w.
Proof. now destruct w. Qed.

Lemma with_console_twice (w : world) (c c' : list string) :
  with_console (with_console w c) c' = with_console w c'.
Proof. reflexivity. Qed.

Lemma same_files_eta (w w' : world) :
  same_files w w' -> w' = with_console w (console w').
Proof.
  destruct w, w'. unfold same_files, with_console. simpl.
  intros (-> & -> & ->). reflexivity.
Qed.

Lemma current_true (w : world) (b out : string) :
  current w b out = true <->
  exists fb fo, fs w !! b = Some fb /\ fs w !! out = Some fo /\ mtime fb <= mtime fo.
Proof.
  unfold current. split.
  - destruct (fs w !! out) as [fo|], (fs w !! b) as [fb|]; try discriminate.
    intros E. exists fb, fo. repeat split. lia.
  - intros (fb & fo & -> & -> & Hle). lia.
Qed.

Lemma current_same_files (w w' : world) (b out : string) :
  same_files w w' -> current w' b out = current w b out.
Proof. intros (Hfs & _). unfold current. now rewrite Hfs. Qed.

(** The test of line 41 never changes the world; it answers [current]
    whenever the base file exists. *)
Lemma up_to_date_run (w : world) (b out : string) :
  is_Some (fs w !! b) -> up_to_date b out w = (w, Ok (current w b out)).
Proof.
  intros [fb Hb]. unfold up_to_date, current. unfold_monad. unfold_io.
  destruct (fs w !! out) as [fo|] eqn:Ho; simpl; rewrite ?Hb, ?Ho; reflexivity.
Qed.

Lemma up_to_date_cases (w : world) (b out : string) :
  up_to_date b out w = (w, Ok (current w b out)) \/
  exists msg, up_to_date b out w = (w, Throw msg).
Proof.
  unfold up_to_date, current. unfold_monad. unfold_io.
  destruct (fs w !! out) as [fo|] eqn:Ho; simpl.
  - destruct (fs w !! b) as [fb|]; rewrite ?Ho; eauto.
  - left. reflexivity.
Qed.

Lemma is_mode_true (m : background_meta) (mode : string) :
  is_mode m mode = true <-> composite m = Some mode.
Proof. unfold is_mode. apply bool_decide_eq_true. Qed.

Lemma is_mode_false (m : background_meta) (mode : string) :
  is_mode m mode = false <-> composite m <> Some mode.
Proof. unfold is_mode. apply bool_decide_eq_false. Qed.

(** [centerImage] either throws and leaves the world alone, or writes. *)
Lemma centerImage_effect (w : world) (b bgf out : string) :
  (exists msg, centerImage b bgf out w = (w, Throw msg)) \/
  (exists base bg r, decode w b = Some base /\ is_directory w out = false /\
                     centerImage b bgf out w = (rendered w out bg r, Ok tt)).
Proof.
  unfold centerImage. unfold_monad. unfold metadata, positive_integer.
  destruct (decode w b) as [base|] eqn:Hb; [| eauto].
  destruct (Number.to_integer (center_target base)) as [z|]; [| eauto].
  unfold_monad. destruct (0 <? z); [| eauto].
  match goal with
  | |- context [toFile ?r out w] =>
      destruct (toFile_cases w r out)
        as [[msg ->] | (bg & ov & _ & _ & _ & _ & _ & Hd & ->)]
  end; [eauto |].
  right. eexists base, bg, _. repeat split; assumption.
Qed.

(** [placeOnTransparent] never changes the world: it throws, or it hands
    back the write it has started, which targets the output path. *)
Lemma placeOnTransparent_cases (w : world) (b bgf out : string) (tb : option boundary) :
  (exists msg, placeOnTransparent b bgf out tb w = (w, Throw msg)) \/
  (exists base r, decode w b = Some base /\
                  placeOnTransparent b bgf out tb w = (w, Ok (Launched r out))).
Proof.
  unfold placeOnTransparent. unfold_monad. unfold metadata, positive_integer, integer.
  destruct (decode w b) as [base|] eqn:Hb; [| eauto].
  destruct tb as [tb|]; [| eauto].
  destruct (Number.to_integer (base_height (width base) tb)) as [h|]; [| eauto].
  unfold_monad. destruct (0 <? h); [| eauto].
  destruct (decode w bgf) as [bg|] eqn:Hbg; [| eauto].
  cbn [width height].
  destruct (Number.to_integer (scaled (width bg) _)) as [bw|]; [| eauto].
  unfold_monad. destruct (0 <? bw); [| eauto].
  destruct (Number.to_integer (scaled (height bg) _)) as [bh|]; [| eauto].
  unfold_monad. destruct (0 <? bh); [| eauto].
  destruct (Number.to_integer (offset (tb_left tb) bw)) as [l|]; [| eauto].
  destruct (Number.to_integer (offset (tb_top tb) bh)) as [t|]; [| eauto].
  unfold_monad. right. eexists base, _. split; reflexivity.
Qed.

(** The embedded compositor together with the write it leaves in flight:
    the world is left alone, or the output is written. *)
Lemma placeOnTransparent_effect (w : world) (b bgf out : string) (tb : option boundary) :
  (exists msg, (job ← placeOnTransparent b bgf out tb; in_flight job) w = (w, Throw msg)) \/
  (exists base bg r,
     decode w b = Some base /\ is_directory w out = false /\
     (job ← placeOnTransparent b bgf out tb; in_flight job) w
     = (rendered w out bg r, Ok tt)).
Proof.
  unfold mbind, M_bind.
  destruct (placeOnTransparent_cases w b bgf out tb)
    as [[msg ->] | (base & r & Hb & ->)]; [eauto |].
  unfold in_flight. cbn [job_render job_file].
  destruct (toFile_cases w r out)
    as [[msg ->] | (bg & ov & _ & _ & _ & _ & _ & Hd & ->)]; [eauto |].
  right. exists base, bg, r. repeat split; assumption.
Qed.

(** Every run of the loop body ends in one of the five ways of [pair_effect]. *)
Lemma generate_pair_effect (o : options) (ratio : number) (b : string)
    (e : string * background_meta) (w w' : world) (res : outcome unit) :
  generate_pair o ratio b e w = (w', res) ->
  pair_effect w b (snd e) (outputFile o ratio b (fst e)) w' res.
Proof.
  unfold generate_pair. set (out := outputFile o ratio b (fst e)).
  unfold mbind at 1. unfold M_bind.
  destruct (up_to_date_cases w b out) as [-> | [msg ->]];
    [| intros [= <- <-]; apply effect_throw].
  destruct (current w b out) eqn:Hc.
  { intros [= <- <-]. now apply effect_skip. }
  unfold compose_pair.
  destruct (is_mode (snd e) "center") eqn:Hcenter.
  { unfold mbind, M_bind.
    destruct (centerImage_effect w b (backgroundFile (snd e)) out)
      as [[msg ->] | (base & bg & r & Hb & Hd & ->)];
      intros [= <- <-]; [apply effect_throw |].
    now apply (effect_write w b (snd e) out base bg r). }
  apply is_mode_false in Hcenter.
  destruct (is_mode (snd e) "embedded") eqn:Hemb.
  { apply is_mode_true in Hemb.
    unfold mbind at 1. unfold M_bind. unfold metadata.
    destruct (decode w b) as [base|] eqn:Hb;
      [| intros [= <- <-]; apply effect_throw].
    case_bool_decide as Ho.
    - intros [= <- <-]. now apply (effect_mismatch w b (snd e) out base).
    - pose proof (placeOnTransparent_effect w b (backgroundFile (snd e)) out
                    (transparentBoundary (snd e))) as Heff.
      unfold mbind, M_bind in Heff |- *.
      destruct (placeOnTransparent b (backgroundFile (snd e)) out
                  (transparentBoundary (snd e)) w) as [w1 [job | msg]].
      + destruct Heff as [[msg ->] | (base' & bg & r & Hb' & Hd & ->)];
          intros [= <- <-]; [apply effect_throw |].
        now apply (effect_write w b (snd e) out base' bg r).
      + destruct Heff as [[msg' [= -> ->]] | (? & ? & ? & _ & _ & [=])].
        intros [= <- <-]. apply effect_throw. }
  apply is_mode_false in Hemb.
  intros [= <- <-]. now apply effect_no_compositor.
Qed.

End Pair.

(* ===================================================================== *)
(** ** The batch driver *)
(* ===================================================================== *)

Section Driver.
Context `{Platform}.

Lemma decode_exists (w : world) (p : string) (d : dims) :
  decode w p = Some d -> is_Some (fs w !! p).
Proof.
  unfold decode. destruct (fs w !! p); [eauto | discriminate].
Qed.

Lemma embedded_not_center (m : background_meta) :
  composite m = Some "embedded" -> is_mode m "center" = false.
Proof. intros Hm. apply is_mode_false. rewrite Hm. discriminate. Qed.

(** C10.  A pair whose mode is neither "center" nor "embedded", and whose
    output is not current, calls no compositor and writes nothing; it still
    prints the "Generate" line and ends normally. *)
Theorem no_compositor_law (o : options) (ratio : number) (b i : string)
    (m : background_meta) (w : world) :
  composite m <> Some "center" ->
  composite m <> Some "embedded" ->
  is_Some (fs w !! b) ->
  current w b (outputFile o ratio b i) = false ->
  let out := outputFile o ratio b i in
  let w' := with_console w (console w ++ [generate_line out]) in
  generate_pair o ratio b (i, m) w = (w', Ok tt) /\
  fs w' = fs w /\
  encoded w' = encoded w /\
  clock w' = clock w /\
  console w' = (console w ++ [("Generate " ++ path_relative dirname out)%string])%list.
Proof.
  intros Hc He Hb Hcur out w'.
  split; [| repeat split].
  unfold generate_pair. cbn [fst snd]. fold out. fold out in Hcur.
  unfold mbind, M_bind. rewrite (up_to_date_run w b out Hb). rewrite Hcur.
  unfold compose_pair.
  apply is_mode_false in Hc, He. now rewrite Hc, He.
Qed.

(** C5.  For an "embedded" entry the orientation of the base is "landscape"
    when its width exceeds its height and "portrait" otherwise; when it
    differs from the declared one the pair ends normally, no file is written
    and nothing is encoded, and the loop goes on with the remaining pairs. *)
Theorem orientation_guard_law (o : options) (ratio : number) (b i : string)
    (m : background_meta) (w : world) (base : dims)
    (rest : list (string * background_meta)) :
  composite m = Some "embedded" ->
  decode w b = Some base ->
  Some (baseOrientation base) <> orientation m ->
  let out := outputFile o ratio b i in
  let w' := if current w b out
            then with_console w (console w ++ [skip_line out]) else w in
  baseOrientation base
  = (if width base >? height base then "landscape" else "portrait") /\
  generate_pair o ratio b (i, m) w = (w', Ok tt) /\
  fs w' = fs w /\
  encoded w' = encoded w /\
  for_of ((i, m) :: rest) (generate_pair o ratio b) w
  = for_of rest (generate_pair o ratio b) w'.
Proof.
  intros Hm Hb Ho out w'.
  assert (Hrun : generate_pair o ratio b (i, m) w = (w', Ok tt)).
  { unfold generate_pair. cbn [fst snd]. fold out.
    unfold mbind at 1. unfold M_bind.
    rewrite (up_to_date_run w b out (decode_exists _ _ _ Hb)).
    subst w'. destruct (current w b out); [reflexivity |].
    unfold compose_pair. rewrite (embedded_not_center m Hm).
    rewrite (proj2 (is_mode_true m "embedded") Hm).
    unfold mbind, M_bind. rewrite (metadata_run _ _ _ Hb).
    now rewrite bool_decide_eq_true_2. }
  split; [unfold baseOrientation; now rewrite Z.gtb_ltb |].
  split; [exact Hrun |].
  split; [subst w'; now destruct (current w b out) |].
  split; [subst w'; now destruct (current w b out) |].
  cbn [for_of]. unfold mbind, M_bind. now rewrite Hrun.
Qed.

Lemma generate_empty (o : options) (ratio : number) (w : world) :
  globSync_on (fs w) (pattern o) = [] ->
  generate o ratio w
  = (with_console w
       (console w ++ [("Base image not found in " ++ pattern o ++ ".")%string]), Ok tt).
Proof.
  intros Hg. unfold generate, globSync. unfold mbind, M_bind. now rewrite Hg.
Qed.

(** C9.  When the glob matches nothing, [generate] prints one line and
    returns normally; the file system is untouched and nothing is encoded. *)
Theorem empty_input_law (o : options) (ratio : number) (w : world) :
  globSync_on (fs w) (pattern o) = [] ->
  let w' := with_console w
              (console w ++ [("Base image not found in " ++ pattern o ++ ".")%string]) in
  generate o ratio w = (w', Ok tt) /\
  fs w' = fs w /\
  encoded w' = encoded w /\
  clock w' = clock w.
Proof.
  intros Hg w'. split; [| repeat split].
  subst w'. now apply generate_empty.
Qed.

(** The only path a pair can encode is its own output path. *)
Lemma generate_pair_encoded (o : options) (ratio : number) (b : string)
    (e : string * background_meta) (w : world) :
  let w' := fst (generate_pair o ratio b e w) in
  encoded w' = encoded w \/
  encoded w' = (encoded w ++ [outputFile o ratio b (fst e)])%list.
Proof.
  intros w'. subst w'.
  destruct (generate_pair o ratio b e w) as [w' res] eqn:E.
  apply generate_pair_effect in E. destruct E; simpl; auto.
Qed.

Lemma entries_lookup {A} (l : list A) (k : nat) (x : A) :
  l !! k = Some x -> entries l !! k = Some (index_key k, x).
Proof. intros Hk. unfold entries. rewrite list_lookup_imap, Hk. reflexivity. Qed.

Lemma entries_elem {A} (l : list A) (i : string) (x : A) :
  (i, x) ∈ entries l -> exists k, i = index_key k /\ l !! k = Some x.
Proof.
  unfold entries. intros Hin.
  apply list_elem_of_lookup in Hin as [k Hk].
  rewrite list_lookup_imap in Hk.
  destruct (l !! k) as [y|] eqn:Hy; simpl in Hk; [| discriminate].
  injection Hk as <- <-. eauto.
Qed.

(** C7.  The entry at catalog position [k] is enumerated under the key [k]
    in decimal; the output name is the base name without extension, an
    underscore, that key and ".jpg" ([license_01.png] and 3 give
    [license_01_3.jpg]); the output path puts this name under the
    subdirectory chosen by the split assigner, which is "train" or "test";
    and that path is the only one the pair can encode. *)
Theorem naming_law (o : options) (ratio : number) (b : string) (k : nat)
    (metas : list background_meta) (m : background_meta) (w : world) :
  metas !! k = Some m ->
  let name := outputFileName b (index_key k) in
  let w' := fst (generate_pair o ratio b (index_key k, m) w) in
  entries metas !! k = Some (index_key k, m) /\
  name = (path_parse_name b ++ "_" ++ index_key k ++ ".jpg")%string /\
  outputFileName "license_01.png" (index_key 3) = "license_01_3.jpg" /\
  outputFile o ratio b (index_key k)
  = path_join [dirname; output o; subdir name ratio; name] /\
  (subdir name ratio = "train" \/ subdir name ratio = "test") /\
  (encoded w' = encoded w \/
   encoded w' = (encoded w ++ [path_join [dirname; output o; subdir name ratio; name]])%list).
Proof.
  intros Hk name w'.
  split; [now apply entries_lookup |].
  split; [reflexivity |].
  split; [reflexivity |].
  split; [reflexivity |].
  split; [apply subdir_train_or_test |].
  apply (generate_pair_encoded o ratio b (index_key k, m) w).
Qed.

End Driver.

(* ===================================================================== *)
(** ** Nothing in the program reads the console *)
(* ===================================================================== *)

Section Oblivious.
Context `{Platform}.

Lemma oblivious_ret {A} (x : A) : oblivious (mret x).
Proof.
  intros w. exists []. split; simpl.
  - now rewrite app_nil_r.
  - intros c. unfold mret, M_ret. now rewrite app_nil_r.
Qed.

Lemma oblivious_throw {A} (msg : string) : oblivious (@throw A msg).
Proof.
  intros w. exists []. split; simpl.
  - now rewrite app_nil_r.
  - intros c. unfold throw. now rewrite app_nil_r.
Qed.

Lemma oblivious_bind {A B} (m : M A) (f : A -> M B) :
  oblivious m -> (forall x, oblivious (f x)) -> oblivious (m ≫= f).
Proof.
  intros Hm Hf w. unfold mbind, M_bind.
  destruct (Hm w) as (l1 & Hc1 & Hrun1).
  destruct (m w) as [w1 [x | e]] eqn:Em; cbn [fst snd] in *.
  - destruct (Hf x w1) as (l2 & Hc2 & Hrun2).
    exists (l1 ++ l2)%list. split.
    + rewrite Hc2, Hc1. now rewrite app_assoc.
    + intros c. rewrite Hrun1, Hrun2. now rewrite app_assoc.
  - exists l1. split; [exact Hc1 |]. intros c. now rewrite Hrun1.
Qed.

(** An action that only inspects files and clock. *)
Lemma oblivious_reader {A} (a : M A) (f : world -> outcome A) :
  (forall w, a w = (w, f w)) ->
  (forall w c, f (with_console w c) = f w) ->
  oblivious a.
Proof.
  intros Ha Hf w. exists []. rewrite Ha. split; simpl.
  - now rewrite app_nil_r.
  - intros c. now rewrite Ha, Hf, app_nil_r.
Qed.

Lemma oblivious_console_log (line : string) : oblivious (console_log line).
Proof.
  intros w. exists [line]. split; [reflexivity |]. intros c. reflexivity.
Qed.

Lemma oblivious_existsSync (p : string) : oblivious (existsSync p).
Proof.
  apply (oblivious_reader _ (fun w => Ok (bool_decide (is_Some (fs w !! p)))));
    reflexivity.
Qed.

Lemma oblivious_statSync (p : string) : oblivious (statSync_mtime p).
Proof.
  apply (oblivious_reader _ (fun w => match fs w !! p with
                                      | Some f => Ok (mtime f)
                                      | None => Throw "ENOENT: no such file or directory"
                                      end)).
  - intros w. unfold statSync_mtime. now destruct (fs w !! p).
  - reflexivity.
Qed.

Lemma oblivious_metadata (p : string) : oblivious (metadata p).
Proof.
  apply (oblivious_reader _ (fun w => match decode w p with
                                      | Some d => Ok d
                                      | None => Throw "Input file is missing or of an unsupported image format"
                                      end)).
  - intros w. unfold metadata. now destruct (decode w p).
  - reflexivity.
Qed.

Lemma oblivious_positive_integer (what : string) (x : number) :
  oblivious (positive_integer what x).
Proof.
  unfold positive_integer. destruct (Number.to_integer x) as [z|].
  - destruct (0 <? z); [apply oblivious_ret | apply oblivious_throw].
  - apply oblivious_throw.
Qed.

Lemma oblivious_integer (what : string) (x : number) : oblivious (integer what x).
Proof.
  unfold integer. destruct (Number.to_integer x); [apply oblivious_ret | apply oblivious_throw].
Qed.

Lemma oblivious_toFile (r : render) (out : string) : oblivious (toFile r out).
Proof.
  intros w. exists []. unfold toFile.
  change (decode (with_console w ?c) ?p) with (decode w p).
  change (is_directory (with_console w ?c) ?p) with (is_directory w p).
  destruct (decode w (rd_background r)) as [bg|],
           (decode w (ov_input (rd_overlay r))) as [ov|];
    try (destruct (openable (overlaid ov (rd_overlay r))),
                  (fits (overlaid ov (rd_overlay r)) (canvas bg r)),
                  (encodable (canvas bg r)), (is_directory w out));
    cbn [negb fst snd];
    (split; [now rewrite app_nil_r | intros c; now rewrite app_nil_r]).
Qed.

Lemma oblivious_in_flight (job : launched) : oblivious (in_flight job).
Proof. apply oblivious_toFile. Qed.

Create HintDb oblivious.

#[local] Hint Resolve oblivious_ret oblivious_throw oblivious_console_log
  oblivious_existsSync oblivious_statSync oblivious_metadata
  oblivious_positive_integer oblivious_integer oblivious_toFile
  oblivious_in_flight : oblivious.

Ltac oblivious_step :=
  first [ apply oblivious_bind; [| intros ?]
        | solve [auto with oblivious] ].

Lemma oblivious_up_to_date (b out : string) : oblivious (up_to_date b out).
Proof.
  unfold up_to_date. oblivious_step; [oblivious_step |].
  destruct x; repeat oblivious_step.
Qed.

Lemma oblivious_centerImage (b bgf out : string) : oblivious (centerImage b bgf out).
Proof. unfold centerImage. repeat oblivious_step. Qed.

Lemma oblivious_placeOnTransparent (b bgf out : string) (tb : option boundary) :
  oblivious (placeOnTransparent b bgf out tb).
Proof.
  unfold placeOnTransparent.
  oblivious_step; [oblivious_step |].
  oblivious_step; [destruct tb; oblivious_step |].
  repeat oblivious_step.
Qed.

Lemma oblivious_generate_pair (o : options) (ratio : number) (b : string)
    (e : string * background_meta) : oblivious (generate_pair o ratio b e).
Proof.
  unfold generate_pair.
  apply oblivious_bind; [apply oblivious_up_to_date |].
  intros [|]; [apply oblivious_console_log |].
  unfold compose_pair.
  destruct (is_mode (snd e) "center").
  { apply oblivious_bind; [apply oblivious_centerImage | intros; apply oblivious_console_log]. }
  destruct (is_mode (snd e) "embedded"); [| apply oblivious_console_log].
  apply oblivious_bind; [apply oblivious_metadata |].
  intros d. case_bool_decide; [apply oblivious_ret |].
  apply oblivious_bind; [apply oblivious_placeOnTransparent | intros job].
  apply oblivious_bind; [apply oblivious_in_flight | intros; apply oblivious_console_log].
Qed.

End Oblivious.

(* ===================================================================== *)
(** ** Incremental regeneration *)
(* ===================================================================== *)

Section Incremental.
Context `{Platform}.

(** *** The loops *)

Lemma for_of_app {A} (l1 l2 : list A) (body : A -> M unit) (w : world) :
  for_of (l1 ++ l2) body w = (for_of l1 body ;; for_of l2 body) w.
Proof.
  revert w. induction l1 as [| x l1 IH]; intros w.
  - reflexivity.
  - cbn [app for_of]. unfold mbind, M_bind in *.
    destruct (body x w) as [w1 [[] | e]]; [apply IH | reflexivity].
Qed.

Lemma for_of_fmap {A B} (f : A -> B) (l : list A) (body : B -> M unit) (w : world) :
  for_of (f <$> l) body w = for_of l (fun x => body (f x)) w.
Proof.
  revert w. induction l as [| x l IH]; intros w; [reflexivity |].
  cbn [fmap list_fmap for_of]. unfold mbind, M_bind.
  destruct (body (f x) w) as [w1 [[] | e]]; [apply IH | reflexivity].
Qed.

(** The two nested loops are one loop over [pairs_of]. *)
Lemma for_of_nested {A B} (bases : list A) (ents : list B)
    (body : A -> B -> M unit) (w : world) :
  for_of bases (fun b => for_of ents (body b)) w
  = for_of (pairs_of bases ents) (fun p => body (fst p) (snd p)) w.
Proof.
  revert w. induction bases as [| b bases IH]; intros w; [reflexivity |].
  change (pairs_of (b :: bases) ents)
    with (((fun e => (b, e)) <$> ents) ++ pairs_of bases ents).
  rewrite for_of_app. cbn [for_of]. unfold mbind, M_bind.
  rewrite for_of_fmap. cbn [fst snd].
  change (fun x : B => body b x) with (body b).
  destruct (for_of ents (body b) w) as [w1 [[] | e]]; [apply IH | reflexivity].
Qed.

(** A property kept by every round of a loop is kept by the loop. *)
Lemma for_of_invariant {A} (P : world -> Prop) (l : list A) (body : A -> M unit) :
  (forall x w, x ∈ l -> P w -> P (fst (body x w))) ->
  forall w, P w -> P (fst (for_of l body w)).
Proof.
  induction l as [| x l IH]; intros Hstep w Hw; [exact Hw |].
  cbn [for_of]. unfold mbind, M_bind.
  pose proof (Hstep x w ltac:(left) Hw) as Hx.
  destruct (body x w) as [w1 [[] | e]]; cbn [fst] in *; [| exact Hx].
  apply IH; [| exact Hx]. intros y w2 Hy. apply Hstep. now right.
Qed.

Lemma pairs_of_elem {A B} (bases : list A) (ents : list B) (p : A * B) :
  p ∈ pairs_of bases ents -> fst p ∈ bases /\ snd p ∈ ents.
Proof.
  unfold pairs_of. intros Hin.
  apply list_elem_of_bind in Hin as (b & Hp & Hb).
  apply list_elem_of_fmap in Hp as (e & -> & He). now split.
Qed.

(** *** Settled pairs stay settled *)

Variable B : list string.

#[local] Abbreviation in_time := (protected B).

Lemma bases_in_time_spec (w : world) : bases_in_time w B = true -> in_time w.
Proof.
  unfold bases_in_time. rewrite forallb_forall. intros Hall b Hb.
  apply list_elem_of_In in Hb. specialize (Hall b Hb).
  destruct (fs w !! b) as [fb|]; [| discriminate].
  exists fb. split; [reflexivity | lia].
Qed.

Lemma in_time_same_files (w w' : world) : same_files w w' -> in_time w -> in_time w'.
Proof. intros (Hfs & Hck & _) Hin b Hb. rewrite Hfs, Hck. auto. Qed.

Lemma decode_same_files (w w' : world) (p : string) :
  same_files w w' -> decode w' p = decode w p.
Proof. intros (Hfs & _). unfold decode. now rewrite Hfs. Qed.

Lemma settled_same_files (w w' : world) (b : string) (m : background_meta) (out : string) :
  same_files w w' -> settled w b m out -> settled w' b m out.
Proof.
  intros Hsame [Hc | [Hm | (Hm & base & Hd & Ho)]].
  - left. now rewrite (current_same_files w w').
  - right. now left.
  - right. right. split; [exact Hm |]. exists base.
    now rewrite (decode_same_files w w').
Qed.

Lemma write_lookup_ne (w : world) (out p : string) (c : content) :
  p <> out -> fs (write w out c) !! p = fs w !! p.
Proof. intros Hne. unfold write. simpl. now apply lookup_insert_ne. Qed.

Lemma settled_after_write (w : world) (out : string) (c : content)
    (b : string) (m : background_meta) (out' : string) :
  in_time w -> b ∈ B -> out ∉ B ->
  settled w b m out' -> settled (write w out c) b m out'.
Proof.
  intros Hin Hb Hout Hs.
  assert (Hne : b <> out) by (intros ->; contradiction).
  destruct Hs as [Hc | [Hm | (Hm & base & Hd & Ho)]].
  - left. apply current_true in Hc as (fb & fo & Hfb & Hfo & Hle).
    apply current_true.
    destruct (decide (out' = out)) as [-> | Hne'].
    + exists fb, (File (clock w) c). rewrite write_lookup_ne by exact Hne.
      split; [exact Hfb |]. split; [unfold write; simpl; apply lookup_insert_eq |].
      destruct (Hin b Hb) as (fb' & Hfb' & Hle'). simpl. congruence.
    + exists fb, fo. now rewrite !write_lookup_ne.
  - right. now left.
  - right. right. split; [exact Hm |]. exists base. split; [| exact Ho].
    unfold decode. now rewrite write_lookup_ne.
Qed.

Lemma in_time_after_write (w : world) (out : string) (c : content) :
  in_time w -> out ∉ B -> in_time (write w out c).
Proof.
  intros Hin Hout b Hb.
  destruct (Hin b Hb) as (fb & Hfb & Hle). exists fb.
  rewrite write_lookup_ne by (intros ->; contradiction).
  split; [exact Hfb | simpl; lia].
Qed.

(** One completed pair is settled afterwards, and unsettles no other. *)
Lemma pair_settles (o : options) (ratio : number) (b : string)
    (e : string * background_meta) (w w' : world) :
  generate_pair o ratio b e w = (w', Ok tt) ->
  in_time w -> b ∈ B -> outputFile o ratio b (fst e) ∉ B ->
  in_time w' /\
  settled w' b (snd e) (outputFile o ratio b (fst e)) /\
  (forall b' m' out', b' ∈ B -> settled w b' m' out' -> settled w' b' m' out').
Proof.
  intros Hrun Hin Hb Hout. apply generate_pair_effect in Hrun.
  inversion Hrun as [Hc | base Hc Hm Hd Ho | Hc Hm1 Hm2 | base bg r Hc Hd Hdir | ];
    subst; set (out := outputFile o ratio b (fst e)) in *.
  - pose proof (with_console_same w (console w ++ [skip_line out])) as Hsame.
    split; [now apply (in_time_same_files w) |].
    split; [left; now rewrite (current_same_files w) |].
    intros b' m' out' _. now apply settled_same_files.
  - split; [assumption |]. split; [| auto].
    right. right. eauto.
  - pose proof (with_console_same w (console w ++ [generate_line out])) as Hsame.
    split; [now apply (in_time_same_files w) |].
    split; [right; now left |].
    intros b' m' out' _. now apply settled_same_files.
  - set (wr := rendered w out bg r).
    pose proof (with_console_same wr (console w ++ [generate_line out])) as Hsame.
    split; [apply (in_time_same_files wr); [assumption | now apply in_time_after_write] |].
    split.
    + apply (settled_same_files wr); [assumption |]. left. apply current_true.
      destruct (Hin b Hb) as (fb & Hfb & Hle).
      exists fb, (File (clock w) (Image (canvas bg r) (Some r))).
      split; [subst wr; unfold rendered; rewrite write_lookup_ne;
              [exact Hfb | intros Heq; apply Hout; now rewrite <- Heq] |].
      split; [apply rendered_lookup | exact Hle].
    + intros b' m' out' Hb' Hs. apply (settled_same_files wr); [assumption |].
      now apply settled_after_write.
Qed.

(** A settled pair whose base file exists only prints. *)
Lemma settled_quiet (o : options) (ratio : number) (b : string)
    (e : string * background_meta) (w : world) :
  is_Some (fs w !! b) ->
  settled w b (snd e) (outputFile o ratio b (fst e)) ->
  exists lines,
    generate_pair o ratio b e w = (with_console w (console w ++ lines), Ok tt).
Proof.
  intros Hb Hs. set (out := outputFile o ratio b (fst e)) in *.
  unfold generate_pair. fold out. unfold mbind at 1. unfold M_bind.
  rewrite (up_to_date_run w b out Hb).
  destruct (current w b out) eqn:Hc; [now exists [skip_line out] |].
  destruct Hs as [Hc' | [[Hm1 Hm2] | (Hm & base & Hd & Ho)]]; [congruence | |].
  - exists [generate_line out]. unfold compose_pair.
    apply is_mode_false in Hm1, Hm2. now rewrite Hm1, Hm2.
  - exists []. unfold compose_pair.
    rewrite (embedded_not_center _ Hm), (proj2 (is_mode_true _ "embedded") Hm).
    unfold mbind, M_bind. rewrite (metadata_run _ _ _ Hd).
    rewrite bool_decide_eq_true_2 by exact Ho.
    unfold mret, M_ret. now rewrite app_nil_r, with_console_id.
Qed.

(** A pair that throws leaves the world as it was, and throws again in any
    world with the same files. *)
Lemma pair_throws_again (o : options) (ratio : number) (b : string)
    (e : string * background_meta) (w w' : world) (msg : string) :
  generate_pair o ratio b e w = (w', Throw msg) ->
  w' = w /\
  forall w2, same_files w w2 -> generate_pair o ratio b e w2 = (w2, Throw msg).
Proof.
  intros Hrun.
  assert (Hw : w' = w).
  { pose proof (generate_pair_effect _ _ _ _ _ _ _ Hrun) as He.
    inversion He; reflexivity. }
  subst w'. split; [reflexivity |]. intros w2 Hsame.
  destruct (oblivious_generate_pair o ratio b e w) as (added & Hc & Hagain).
  rewrite Hrun in Hc, Hagain. cbn [fst snd] in Hc, Hagain.
  assert (added = []) as ->.
  { apply (f_equal length) in Hc. rewrite length_app in Hc.
    destruct added; [reflexivity | simpl in Hc; lia]. }
  rewrite (same_files_eta w w2 Hsame), Hagain. now rewrite app_nil_r.
Qed.

(** The heart of the incremental build: after a loop over pairs, running the
    same loop again in a world with the same files only prints, and ends the
    same way. *)
Lemma loop_again (o : options) (ratio : number)
    (ps : list (string * (string * background_meta))) :
  Forall (fun p => fst p ∈ B /\ outputFile o ratio (fst p) (fst (snd p)) ∉ B) ps ->
  forall (w w' : world) (res : outcome unit),
    in_time w ->
    for_of ps (fun p => generate_pair o ratio (fst p) (snd p)) w = (w', res) ->
    in_time w' /\
    (forall b m out, b ∈ B -> settled w b m out -> settled w' b m out) /\
    (forall w2, same_files w' w2 ->
       exists lines,
         for_of ps (fun p => generate_pair o ratio (fst p) (snd p)) w2
         = (with_console w2 (console w2 ++ lines), res)).
Proof.
  induction 1 as [| [b e] ps [Hb Hout] Hps IH]; intros w w' res Hin Hrun.
  - injection Hrun as <- <-. split; [exact Hin |]. split; [auto |].
    intros w2 _. exists []. cbn [for_of]. unfold mret, M_ret.
    now rewrite app_nil_r, with_console_id.
  - cbn [for_of fst snd] in *. unfold mbind, M_bind in Hrun.
    destruct (generate_pair o ratio b e w) as [wa [[] | msg]] eqn:Ea.
    + destruct (pair_settles o ratio b e w wa Ea Hin Hb Hout) as (Hina & Hsa & Hkeep).
      destruct (IH wa w' res Hina Hrun) as (Hin' & Hkeep' & Hagain).
      split; [exact Hin' |]. split; [now auto |].
      intros w2 Hsame.
      assert (Hs2 : settled w2 b (snd e) (outputFile o ratio b (fst e))).
      { apply (settled_same_files w'); [exact Hsame |]. now apply Hkeep'. }
      assert (Hb2 : is_Some (fs w2 !! b)).
      { destruct (in_time_same_files w' w2 Hsame Hin' b Hb) as (fb & Hfb & _). eauto. }
      destruct (settled_quiet o ratio b e w2 Hb2 Hs2) as (l1 & Hq).
      destruct (Hagain (with_console w2 (console w2 ++ l1))) as (l2 & Hrest).
      { destruct Hsame as (? & ? & ?). repeat split; assumption. }
      exists (l1 ++ l2). unfold mbind, M_bind. rewrite Hq, Hrest.
      cbn [console with_console]. now rewrite app_assoc.
    + injection Hrun as <- <-.
      destruct (pair_throws_again o ratio b e w wa msg Ea) as (-> & Hthrow).
      split; [exact Hin |]. split; [auto |].
      intros w2 Hsame. exists []. unfold mbind, M_bind.
      rewrite (Hthrow w2 Hsame). now rewrite app_nil_r, with_console_id.
Qed.

End Incremental.

Section SecondRun.
Context `{Platform}.

Lemma outputs_apart_spec (o : options) (ratio : number) (bases : list string)
    (metas : list background_meta) :
  outputs_apart o ratio bases (length metas) = true ->
  Forall (fun p => fst p ∈ bases /\ outputFile o ratio (fst p) (fst (snd p)) ∉ bases)
         (pairs_of bases (entries metas)).
Proof.
  unfold outputs_apart. rewrite forallb_forall. intros Hall.
  apply Forall_forall. intros [b [i m]] Hp.
  apply pairs_of_elem in Hp as [Hb He]. cbn [fst snd] in *.
  split; [exact Hb |].
  apply entries_elem in He as (k & -> & Hk).
  specialize (Hall b (proj1 (list_elem_of_In _ _) Hb)).
  rewrite forallb_forall in Hall.
  assert (Hlt : (k < length metas)%nat) by (eapply lookup_lt_Some; eauto).
  assert (Hk' : In k (seq 0 (length metas))) by (apply in_seq; lia).
  specialize (Hall k Hk').
  apply negb_true_iff, bool_decide_eq_false in Hall. exact Hall.
Qed.

Lemma generate_unfold (o : options) (ratio : number) (w : world)
    (metas : list background_meta) :
  globSync_on (fs w) (pattern o) <> [] ->
  catalog_of w = Some metas ->
  generate o ratio w
  = for_of (pairs_of (globSync_on (fs w) (pattern o)) (entries metas))
           (fun p => generate_pair o ratio (fst p) (snd p)) w.
Proof.
  intros Hne Hcat. unfold generate, globSync. unfold mbind at 1. unfold M_bind.
  rewrite bool_decide_eq_false_2
    by (intros Hl; apply Hne; now apply nil_length_inv).
  unfold mbind, M_bind, readCatalog. unfold catalog_of in Hcat.
  destruct (fs w !! catalog_path) as [[t []]|]; try discriminate.
  injection Hcat as ->. apply for_of_nested.
Qed.

Lemma generate_no_catalog (o : options) (ratio : number) (w : world) :
  globSync_on (fs w) (pattern o) <> [] ->
  catalog_of w = None ->
  exists msg, generate o ratio w = (w, Throw msg).
Proof.
  intros Hne Hcat. unfold generate, globSync. unfold mbind at 1. unfold M_bind.
  rewrite bool_decide_eq_false_2
    by (intros Hl; apply Hne; now apply nil_length_inv).
  unfold mbind, M_bind, readCatalog. unfold catalog_of in Hcat.
  destruct (fs w !! catalog_path) as [[t []]|]; try discriminate; eauto.
Qed.

(** Whatever a run of [generate] encodes is the output path of one of its
    pairs: a base file of the glob and a position of the catalog. *)
Lemma generate_encodes_outputs (o : options) (ratio : number) (w : world) :
  exists l,
    encoded (fst (generate o ratio w)) = encoded w ++ l /\
    Forall (fun p => exists b k m metas,
                catalog_of w = Some metas /\
                b ∈ globSync_on (fs w) (pattern o) /\
                metas !! k = Some m /\
                p = outputFile o ratio b (index_key k)) l.
Proof.
  destruct (decide (globSync_on (fs w) (pattern o) = [])) as [Hnil | Hne].
  { exists []. rewrite (generate_empty o ratio w Hnil). cbn [fst encoded with_console].
    split; [now rewrite app_nil_r | constructor]. }
  destruct (catalog_of w) as [metas|] eqn:Hcat.
  2: { destruct (generate_no_catalog o ratio w Hne Hcat) as (msg & ->).
       exists []. split; [now rewrite app_nil_r | constructor]. }
  rewrite (generate_unfold o ratio w metas Hne Hcat).
  apply (for_of_invariant
           (fun w' => exists l, encoded w' = encoded w ++ l /\
              Forall (fun p => exists b k m metas',
                          Some metas = Some metas' /\
                          b ∈ globSync_on (fs w) (pattern o) /\
                          metas' !! k = Some m /\
                          p = outputFile o ratio b (index_key k)) l)).
  - intros [b [i m]] w' Hp (l & Hl & Hall).
    apply pairs_of_elem in Hp as [Hb He]. cbn [fst snd] in *.
    apply entries_elem in He as (k & -> & Hk).
    destruct (generate_pair_encoded o ratio b (index_key k, m) w') as [E | E];
      cbn [fst] in E; rewrite E, Hl.
    + exists l. now split.
    + exists (l ++ [outputFile o ratio b (index_key k)]).
      split; [now rewrite app_assoc |].
      apply Forall_app. split; [exact Hall |].
      constructor; [| constructor]. exists b, k, m, metas. auto.
  - exists []. split; [now rewrite app_nil_r | constructor].
Qed.

(** The test of line 41 decides between the "Skip" line and the dispatch. *)
Lemma skip_rule (o : options) (ratio : number) (b i : string)
    (m : background_meta) (w : world) :
  is_Some (fs w !! b) ->
  let out := outputFile o ratio b i in
  generate_pair o ratio b (i, m) w
  = if current w b out
    then (with_console w (console w ++ [skip_line out]), Ok tt)
    else compose_pair b m out w.
Proof.
  intros Hb out. unfold generate_pair. cbn [fst snd]. fold out.
  unfold mbind, M_bind. rewrite (up_to_date_run w b out Hb).
  now destruct (current w b out).
Qed.


Lemma parse_rejects_main (a : argv) (w : world) (msg : string) :
  parse a = Throw msg -> main a w = (w, Throw msg).
Proof.
  intros Hp. unfold main. unfold mbind at 1. unfold M_bind, lift. now rewrite Hp.
Qed.

(** A missing output directory is a configuration error as well. *)
Lemma missing_output_rejected (a : argv) (w : world) :
  arg_output a = None -> exists msg, main a w = (w, Throw msg).
Proof.
  intros Hout.
  assert (exists msg, parse a = Throw msg) as [msg Hp].
  { unfold parse. rewrite Hout. destruct (arg_type a) as [t|]; [| eauto].
    case_bool_decide; eauto. }
  exists msg. now apply parse_rejects_main.
Qed.

(** C8, as the code has it.  The accepted types are the six choices the
    option declares: the five documented ones and "sample".  A type outside
    these six ends the script before anything else happens: no glob, no
    catalog, no directory, no file; the world is left exactly as it was. *)
Theorem configuration_law (a : argv) (w : world) (t : string) :
  arg_type a = Some t ->
  t ∉ choices ->
  choices = documented_types ++ ["sample"] /\
  (forall t' out,
     parse (Argv (Some t') (Some out)) = Ok (Options t' out) <-> t' ∈ choices) /\
  exists msg, parse a = Throw msg /\ main a w = (w, Throw msg).
Proof.
  intros Ht Hbad.
  split; [reflexivity |].
  split.
  { intros t' out. unfold parse. cbn [arg_type arg_output].
    case_bool_decide; split; intros Hx; try reflexivity; try discriminate; tauto. }
  assert (exists msg, parse a = Throw msg) as [msg Hp].
  { unfold parse. rewrite Ht. rewrite bool_decide_eq_false_2 by exact Hbad. eauto. }
  exists msg. split; [exact Hp | now apply parse_rejects_main].
Qed.

End SecondRun.

(* ===================================================================== *)
(** ** The program at work *)
(* ===================================================================== *)

Example parse_name_png :
  path_parse_name "bases/driverslicense/license_01.png" = "license_01".
Proof. reflexivity. Qed.

Example parse_name_dots : path_parse_name "bases/x/a.b.jpg" = "a.b".
Proof. reflexivity. Qed.

Example parse_name_hidden : path_parse_name "bases/x/.hidden" = ".hidden".
Proof. reflexivity. Qed.

Example floor_3_6 :
  Number.to_integer (Number.floor (Number.mul (Number.of_Z 3) (Number.lit 12 10))) = Some 3.
Proof. vm_compute. reflexivity. Qed.

Example round_3_6 :
  Number.to_integer (Number.round (Number.mul (Number.of_Z 3) (Number.lit 12 10))) = Some 4.
Proof. vm_compute. reflexivity. Qed.

Example round_half : Number.to_integer (Number.round (Number.lit 5 2)) = Some 3.
Proof. vm_compute. reflexivity. Qed.

Example round_neg_half : Number.round (Number.lit (-5) 2) = Number.of_Z (-2).
Proof. vm_compute. reflexivity. Qed.

Example floor_neg_half : Number.floor (Number.lit (-1) 2) = Number.of_Z (-1).
Proof. vm_compute. reflexivity. Qed.

(** A first run over one base and three backgrounds: the centered and the
    landscape cutout are generated, the portrait cutout is passed over. *)
Example first_run :
  let '(w, r) := @generate Demo.platform Demo.opts default_trainRatio Demo.w3 in
  r = Ok tt /\
  encoded w = ["/app/out/train/license_01_0.jpg"; "/app/out/train/license_01_1.jpg"] /\
  console w = ["Generate out/train/license_01_0.jpg";
               "Generate out/train/license_01_1.jpg"].
Proof. vm_compute. repeat split. Qed.

(** With [-o a/b] the script makes the missing ancestor as well, then finds
    no base image. *)
Example nested_output_directory :
  let '(w, r) := @main Demo.platform (Argv (Some "sample") (Some "a/b")) Demo.w_home in
  r = Ok tt /\
  (fst <$> map_to_list (fs w))
  ≡ₚ ["/app"; "/app/a"; "/app/a/b"; "/app/a/b/train"; "/app/a/b/test"] /\
  console w = ["Base image not found in bases/sample/*.{png,jpg}."].
Proof.
  vm_compute. split; [reflexivity |]. split; [| reflexivity].
  apply (bool_decide_unpack _). vm_compute. exact I.
Qed.

(** A regular file where the output directory is to be: [train] cannot be
    made below it, and the script ends before it looks for base images. *)
Example blocked_output_directory :
  @main Demo.platform (Argv (Some "sample") (Some "out")) Demo.w_blocked
  = (Demo.w_blocked, Throw "ENOTDIR: not a directory").
Proof. vm_compute. reflexivity. Qed.

(** The stand-in engine keeps the aspect ratio. *)
Lemma nearest_keeps_ratio : @keeps_ratio Demo.platform.
Proof.
  intros W H w HW HH Hw. cbn [auto_height Demo.platform]. unfold Demo.nearest_height.
  pose proof (Z.div_mod (2 * H * w + W - 1) (2 * W) ltac:(lia)) as Hdm.
  pose proof (Z.mod_pos_bound (2 * H * w + W - 1) (2 * W) ltac:(lia)) as Hmod.
  set (q := (2 * H * w + W - 1) / (2 * W)) in *.
  assert (0 < H * w) by nia.
  destruct (Z.max_spec 1 q) as [[Hlt ->] | [Hle ->]]; (split; [lia |]);
    apply Z.abs_lt; nia.
Qed.

(** *** The laws at concrete inputs *)




(** The portrait cutout is passed over for the landscape license. *)
Lemma orientation_guard_witness :
  @generate_pair Demo.platform Demo.opts default_trainRatio Demo.license
                 ("2", Demo.embedded_entry "phone.png" "portrait") Demo.w3
  = (Demo.w3, Ok tt).
Proof.
  refine (proj1 (proj2 (@orientation_guard_law Demo.platform Demo.opts default_trainRatio
                          Demo.license "2" (Demo.embedded_entry "phone.png" "portrait")
                          Demo.w3 (Dims 400 200) [] _ _ _))).
  - reflexivity.
  - vm_compute. reflexivity.
  - vm_compute. discriminate.
Defined.

(** No base file: one line, nothing else. *)
Lemma empty_input_witness :
  @generate Demo.platform Demo.opts default_trainRatio Demo.w_empty
  = (with_console Demo.w_empty
       ["Base image not found in bases/driverslicense/*.{png,jpg}."], Ok tt).
Proof.
  refine (proj1 (@empty_input_law Demo.platform Demo.opts default_trainRatio
                   Demo.w_empty _)).
  vm_compute. reflexivity.
Defined.

(** An entry with mode "tile": the line is printed, nothing is written. *)
Lemma no_compositor_witness :
  @generate_pair Demo.platform Demo.opts default_trainRatio Demo.license
                 ("0", BackgroundMeta "wood.jpg" (Some "tile") None None) Demo.w_odd
  = (with_console Demo.w_odd ["Generate out/train/license_01_0.jpg"], Ok tt).
Proof.
  refine (proj1 (@no_compositor_law Demo.platform Demo.opts default_trainRatio
                   Demo.license "0" (BackgroundMeta "wood.jpg" (Some "tile") None None)
                   Demo.w_odd _ _ _ _)).
  - discriminate.
  - discriminate.
  - vm_compute. eauto.
  - vm_compute. reflexivity.
Defined.

(** The naming law at catalog position 1 of the three-entry catalog. *)
Lemma naming_witness :
  @outputFile Demo.platform Demo.opts default_trainRatio Demo.license (index_key 1)
  = "/app/out/train/license_01_1.jpg".
Proof.
  refine (eq_trans
            (proj1 (proj2 (proj2 (proj2
               (@naming_law Demo.platform Demo.opts default_trainRatio Demo.license 1
                            Demo.catalog3 (Demo.embedded_entry "frame.png" "landscape")
                            Demo.w3 _))))) _).
  - reflexivity.
  - vm_compute. reflexivity.
Defined.



(** A type outside the six choices: the script stops at once. *)
Lemma configuration_witness :
  exists msg,
    parse (Argv (Some "passport") (Some "out")) = Throw msg /\
    @main Demo.platform (Argv (Some "passport") (Some "out")) Demo.w3
    = (Demo.w3, Throw msg).
Proof.
  refine (proj2 (proj2 (@configuration_law Demo.platform
                          (Argv (Some "passport") (Some "out")) Demo.w3 "passport" _ _))).
  - reflexivity.
  - apply (proj1 (bool_decide_eq_false _)). vm_compute. reflexivity.
Defined.

(** C8 as stated fails.  "sample" is not among the five documented types,
    yet it is accepted: the script creates the output directories and runs
    [generate], which globs [bases/sample]. *)
Lemma sample_is_accepted :
  let a := Argv (Some "sample") (Some "out") in
  let w := fst (@main Demo.platform a Demo.w_empty) in
  ("sample" ∉ documented_types) /\
  parse a = Ok (Options "sample" "out") /\
  snd (@main Demo.platform a Demo.w_empty) = Ok tt /\
  data <$> (fs w !! "/app/out/train") = Some Directory /\
  console w = ["Base image not found in bases/sample/*.{png,jpg}."] /\
  fs w <> fs Demo.w_empty.
Proof.
  cbv zeta.
  split; [apply (proj1 (bool_decide_eq_false _)); vm_compute; reflexivity |].
  repeat (split; [vm_compute; reflexivity |]).
  intros Heq.
  apply (f_equal (fun m => data <$> (m !! "/app/out/train"))) in Heq.
  vm_compute in Heq. discriminate.
Qed.

(* ===================================================================== *)
(** ** Further properties: the split *)
(* ===================================================================== *)

Lemma ratio_cases (r : Z) :
  0 <= r <= 10 ->
  r = 0 \/ r = 1 \/ r = 2 \/ r = 3 \/ r = 4 \/ r = 5 \/ r = 6 \/ r = 7 \/ r = 8 \/
  r = 9 \/ r = 10.
Proof. lia. Qed.

Lemma tenth_ltb (k r : Z) :
  0 <= k <= 9 -> 0 <= r <= 10 ->
  Number.ltb (Number.lit k 10) (Number.lit r 10) = (k <? r).
Proof.
  intros Hk Hr.
  destruct (digit_cases k Hk) as [-> | [-> | [-> | [-> | [-> | [-> | [-> | [-> | [-> | ->]]]]]]]]];
    destruct (ratio_cases r Hr)
      as [-> | [-> | [-> | [-> | [-> | [-> | [-> | [-> | [-> | [-> | ->]]]]]]]]]];
    vm_compute; reflexivity.
Qed.

Ltac tenth_value :=
  match goal with
  | |- context [Number.lit ?k 10] =>
      let v := eval vm_compute in (Number.lit k 10) in
      change (Number.lit k 10) with v
  end.

Ltac one_value :=
  let v := eval vm_compute in (Number.of_Z 1) in
  change (Number.of_Z 1) with v.

Ltac zero_value :=
  let v := eval vm_compute in (Number.of_Z 0) in
  change (Number.of_Z 0) with v.

Lemma tenth_below_one_or_more (k : Z) (r : spec_float) :
  0 <= k <= 9 ->
  Number.leb (Number.of_Z 1) r = true ->
  Number.ltb (Number.lit k 10) r = true.
Proof.
  intros Hk. one_value.
  unfold Number.leb, Number.ltb, SFleb, SFltb.
  destruct (digit_cases k Hk) as [-> | [-> | [-> | [-> | [-> | [-> | [-> | [-> | [-> | ->]]]]]]]]];
    tenth_value;
    (destruct r as [s | [] | | [] m e]; cbn -[Z.compare Pos.compare_cont];
     try discriminate; try reflexivity;
     intros Hone;
     match goal with
     | |- context [Z.compare ?a e] =>
         destruct (Z.compare_spec a e) as [He | He | He]; try reflexivity;
         exfalso; revert Hone;
         destruct (Z.compare_spec (-52) e); try discriminate; lia
     end).
Qed.

Lemma tenth_not_below_nonpositive (k : Z) (r : spec_float) :
  0 <= k <= 9 ->
  Number.ltb (Number.of_Z 0) r = false ->
  Number.ltb (Number.lit k 10) r = false.
Proof.
  intros Hk. zero_value.
  unfold Number.ltb, SFltb.
  destruct (digit_cases k Hk) as [-> | [-> | [-> | [-> | [-> | [-> | [-> | [-> | [-> | ->]]]]]]]]];
    tenth_value;
    (destruct r as [s | [] | | [] m e]; cbn -[Z.compare Pos.compare_cont];
     try discriminate; reflexivity).
Qed.

Section SplitEdges.
Context `{Platform}.

Lemma split_value_tenth (name : string) :
  split_value name = Number.lit (Z.abs (int32 name) mod 10) 10 /\
  0 <= Z.abs (int32 name) mod 10 <= 9.
Proof.
  unfold split_value, Number.lit.
  rewrite <- (Z.rem_mod_nonneg (Z.abs (int32 name)) 10) by (try apply Z.abs_nonneg; lia).
  split; [reflexivity | apply seed_digit].
Qed.

(** X1.  For a ratio written with one decimal, [r/10] with [r] from 0 to 10,
    a name goes to "train" exactly when the last decimal digit of the
    absolute draw is below [r]: [r] of the ten digits go to "train". *)
Theorem decimal_ratio_split (name : string) (r : Z) :
  0 <= r <= 10 ->
  subdir name (Number.lit r 10)
  = if Z.abs (int32 name) mod 10 <? r then "train" else "test".
Proof.
  intros Hr. destruct (split_value_tenth name) as [Hv Hd].
  unfold subdir. rewrite Hv. now rewrite tenth_ltb.
Qed.

(** X2.  A ratio of 1 or more (plus infinity included) sends every name to
    "train". *)
Theorem ratio_at_least_one_all_train (name : string) (trainRatio : number) :
  Number.leb (Number.of_Z 1) trainRatio = true ->
  subdir name trainRatio = "train".
Proof.
  intros Hr. destruct (split_value_tenth name) as [Hv Hd].
  unfold subdir. rewrite Hv. now rewrite tenth_below_one_or_more.
Qed.

(** X3.  A ratio that is not positive (zero, negative, NaN) sends every name
    to "test". *)
Theorem ratio_not_positive_all_test (name : string) (trainRatio : number) :
  Number.ltb (Number.of_Z 0) trainRatio = false ->
  subdir name trainRatio = "test".
Proof.
  intros Hr. destruct (split_value_tenth name) as [Hv Hd].
  unfold subdir. rewrite Hv. now rewrite tenth_not_below_nonpositive.
Qed.

End SplitEdges.

(* ===================================================================== *)
(** ** Further properties: output names *)
(* ===================================================================== *)

Lemma list_ascii_app (a b : string) :
  list_ascii_of_string (a ++ b)%string = list_ascii_of_string a ++ list_ascii_of_string b.
Proof. induction a as [| c a IH]; [reflexivity |]. simpl. now rewrite IH. Qed.

Lemma string_of_list_app (a b : list ascii) :
  string_of_list_ascii (a ++ b) = (string_of_list_ascii a ++ string_of_list_ascii b)%string.
Proof. induction a as [| c a IH]; [reflexivity |]. simpl. now rewrite IH. Qed.

Lemma drop_slashes_head (c : ascii) (l : list ascii) :
  Ascii.eqb c "/" = false -> drop_slashes (c :: l) = c :: l.
Proof. intros Hc. simpl. now rewrite Hc. Qed.

Lemma take_segment_stops (a r : list ascii) :
  forallb (fun x => negb (Ascii.eqb x "/")) a = true ->
  take_segment (a ++ "/"%char :: r) = a.
Proof.
  induction a as [| c a IH]; intros Ha; [reflexivity |].
  simpl in *. apply andb_true_iff in Ha as [Hc Ha].
  apply negb_true_iff in Hc. rewrite Hc. now rewrite IH.
Qed.

Lemma before_last_dot_finds (a r : list ascii) :
  forallb (fun x => negb (Ascii.eqb x ".")) a = true ->
  before_last_dot (a ++ "."%char :: r) = Some r.
Proof.
  induction a as [| c a IH]; intros Ha; [reflexivity |].
  simpl in *. apply andb_true_iff in Ha as [Hc Ha].
  apply negb_true_iff in Hc. rewrite Hc. now apply IH.
Qed.

Lemma forallb_rev {A} (f : A -> bool) (l : list A) :
  forallb f (rev l) = forallb f l.
Proof.
  induction l as [| x l IH]; [reflexivity |].
  simpl. rewrite forallb_app, IH. simpl. rewrite andb_true_r. apply andb_comm.
Qed.

(** The name of [dir/stem.ext]: the directory and the extension go. *)
Lemma path_parse_name_of (dir stem ext : string) :
  stem <> "" -> ext <> "" ->
  free_of "/" stem = true -> free_of "/" ext = true -> free_of "." ext = true ->
  path_parse_name (dir ++ "/" ++ stem ++ "." ++ ext) = stem.
Proof.
  intros Hstem Hext Hs1 He1 He2. unfold free_of in *.
  unfold path_parse_name.
  set (S := list_ascii_of_string stem) in *.
  set (E := list_ascii_of_string ext) in *.
  assert (Hrev : rev (list_ascii_of_string (dir ++ "/" ++ stem ++ "." ++ ext))
                 = (rev E ++ "."%char :: rev S) ++ "/"%char :: rev (list_ascii_of_string dir)).
  { rewrite !list_ascii_app. fold S E. cbn [list_ascii_of_string].
    rewrite !rev_app_distr. cbn [rev app].
    rewrite <- ?app_assoc. reflexivity. }
  rewrite Hrev. clear Hrev.
  assert (HE : E <> []).
  { intros HE. apply Hext. rewrite <- (string_of_list_ascii_of_string ext).
    fold E. now rewrite HE. }
  assert (HS : S <> []).
  { intros HS. apply Hstem. rewrite <- (string_of_list_ascii_of_string stem).
    fold S. now rewrite HS. }
  assert (Hdrop : drop_slashes ((rev E ++ "."%char :: rev S) ++ "/"%char
                                  :: rev (list_ascii_of_string dir))
                  = (rev E ++ "."%char :: rev S) ++ "/"%char
                      :: rev (list_ascii_of_string dir)).
  { rewrite <- (forallb_rev _ E) in He1.
    destruct (rev E) as [| c l] eqn:Hr.
    - exfalso. apply HE. rewrite <- (rev_involutive E), Hr. reflexivity.
    - cbn [app]. apply drop_slashes_head.
      simpl in He1. apply andb_true_iff in He1 as [Hc _]. now apply negb_true_iff. }
  rewrite Hdrop. clear Hdrop.
  rewrite take_segment_stops.
  2: { rewrite forallb_app. cbn [forallb]. rewrite !forallb_rev, He1, Hs1. reflexivity. }
  rewrite before_last_dot_finds by now rewrite forallb_rev.
  destruct (rev S) as [| c l] eqn:Hr.
  { exfalso. apply HS. rewrite <- (rev_involutive S), Hr. reflexivity. }
  rewrite <- Hr.
  rewrite rev_app_distr. cbn [rev]. rewrite !rev_involutive.
  assert (HSs : string_of_list_ascii S = stem) by apply string_of_list_ascii_of_string.
  clearbody S E.
  destruct (String.eqb_spec (string_of_list_ascii ((S ++ ["."%char]) ++ E)) "..") as [Heq | _];
    [| exact HSs].
  exfalso. apply (f_equal list_ascii_of_string) in Heq.
  rewrite list_ascii_of_string_of_list_ascii in Heq.
  apply (f_equal (@length ascii)) in Heq. rewrite !length_app in Heq.
  destruct S; [contradiction |]. destruct E; [contradiction |].
  simpl in Heq. lia.
Qed.

(** X4.  For a base file [dir/stem.ext] the output name is [stem_i.jpg]:
    the directory and the extension of the base file leave no trace. *)
Theorem output_name_of_base (dir stem ext i : string) :
  stem <> "" -> ext <> "" ->
  free_of "/" stem = true -> free_of "/" ext = true -> free_of "." ext = true ->
  outputFileName (dir ++ "/" ++ stem ++ "." ++ ext) i = (stem ++ "_" ++ i ++ ".jpg")%string.
Proof.
  intros. unfold outputFileName. now rewrite path_parse_name_of.
Qed.

Lemma output_name_witness :
  outputFileName "bases/driverslicense/license.v2.png" "12" = "license.v2_12.jpg".
Proof.
  refine (output_name_of_base "bases/driverslicense" "license.v2" "png" "12" _ _ _ _ _);
    (discriminate || reflexivity).
Defined.

(* ===================================================================== *)
(** ** Further properties: the compositors *)
(* ===================================================================== *)

Section CompositorEdges.
Context `{Platform}.

Lemma centerImage_succeeds (w : world) (b bgf out : string) (base bg : dims) (target : Z) :
  decode w b = Some base ->
  decode w bgf = Some bg ->
  Number.to_integer (center_target base) = Some target ->
  0 < target ->
  fits base (Dims target (auto_height (width bg) (height bg) target)) = true ->
  encodable (Dims target (auto_height (width bg) (height bg) target)) = true ->
  is_directory w out = false ->
  centerImage b bgf out w = (rendered w out bg (center_render b bgf target), Ok tt).
Proof.
  intros Hb Hbg Ht Hpos Hfit Hen Hd.
  rewrite (centerImage_unfold w b bgf out base target Hb Ht Hpos).
  apply (toFile_run w _ out bg base); try assumption.
  now apply (decode_openable w b).
Qed.

(** X5.  [centerImage] is all or nothing.  It succeeds exactly when base and
    background decode, the target width is a positive integer, the base is
    neither wider nor taller than the resized background, that canvas is
    within the limits of a JPEG, and the output path is no directory; then
    it writes that one file and prints nothing.  In every other case it
    throws and leaves the world as it was. *)
Theorem centerImage_all_or_nothing (w : world) (b bgf out : string) :
  (forall w',
     centerImage b bgf out w = (w', Ok tt) <->
     exists base bg target,
       decode w b = Some base /\
       decode w bgf = Some bg /\
       Number.to_integer (center_target base) = Some target /\
       0 < target /\
       fits base (Dims target (auto_height (width bg) (height bg) target)) = true /\
       encodable (Dims target (auto_height (width bg) (height bg) target)) = true /\
       is_directory w out = false /\
       w' = rendered w out bg (center_render b bgf target)) /\
  (forall w' msg, centerImage b bgf out w = (w', Throw msg) -> w' = w).
Proof.
  split.
  - intros w'. split.
    + intros Hrun. apply centerImage_ok in Hrun
        as (base & bg & target & Hb & Hbg & Ht & Hpos & Hfit & Hen & Hd & ->).
      exists base, bg, target. repeat split; assumption.
    + intros (base & bg & target & Hb & Hbg & Ht & Hpos & Hfit & Hen & Hd & ->).
      now apply (centerImage_succeeds w b bgf out base bg target).
  - intros w' msg Hrun.
    destruct (centerImage_effect w b bgf out)
      as [[msg' E] | (base & bg & r & _ & _ & E)]; rewrite E in Hrun.
    + now injection Hrun as <- <-.
    + discriminate.
Qed.

(** X6.  [placeOnTransparent] itself writes nothing and prints nothing: in
    every case it leaves the world exactly as it found it.  It returns
    normally only when the boundary is present, both images decode and the
    engine accepts the three sizes and the two offsets, and what it hands
    back is the one write it has started: the render of these sizes and
    offsets, aimed at the output path.  Whether that write succeeds is not
    known when the function returns. *)
Theorem placeOnTransparent_writes_nothing (w : world) (b bgf out : string)
    (boundary : option boundary) :
  fst (placeOnTransparent b bgf out boundary w) = w /\
  (forall job,
     snd (placeOnTransparent b bgf out boundary w) = Ok job ->
     exists tb base bg h bw bh t l,
       boundary = Some tb /\
       decode w b = Some base /\
       decode w bgf = Some bg /\
       Number.to_integer (base_height (width base) tb) = Some h /\ 0 < h /\
       Number.to_integer (scaled (width bg) (backgroundScale (width base) (width bg) tb))
       = Some bw /\ 0 < bw /\
       Number.to_integer (scaled (height bg) (backgroundScale (width base) (width bg) tb))
       = Some bh /\ 0 < bh /\
       Number.to_integer (offset (tb_left tb) bw) = Some l /\
       Number.to_integer (offset (tb_top tb) bh) = Some t /\
       job = Launched (embedded_render b bgf (width base) h bw bh t l) out).
Proof.
  split.
  - destruct (placeOnTransparent_cases w b bgf out boundary)
      as [[msg ->] | (base & r & _ & ->)]; reflexivity.
  - unfold placeOnTransparent. unfold_monad. unfold metadata, positive_integer, integer.
    destruct (decode w b) as [base|] eqn:Hb; [| discriminate].
    destruct boundary as [tb|]; [| discriminate].
    destruct (Number.to_integer (base_height (width base) tb)) as [h|] eqn:Hh;
      [| discriminate].
    unfold_monad. destruct (0 <? h) eqn:Hhpos; [| discriminate].
    destruct (decode w bgf) as [bg|] eqn:Hbg; [| discriminate].
    cbn [width height].
    destruct (Number.to_integer (scaled (width bg) _)) as [bw|] eqn:Hbw; [| discriminate].
    unfold_monad. destruct (0 <? bw) eqn:Hbwpos; [| discriminate].
    destruct (Number.to_integer (scaled (height bg) _)) as [bh|] eqn:Hbh; [| discriminate].
    unfold_monad. destruct (0 <? bh) eqn:Hbhpos; [| discriminate].
    destruct (Number.to_integer (offset (tb_left tb) bw)) as [l|] eqn:Hl; [| discriminate].
    destruct (Number.to_integer (offset (tb_top tb) bh)) as [t|] eqn:Ht; [| discriminate].
    unfold_monad. cbn [snd]. intros job [= <-].
    exists tb, base, bg, h, bw, bh, t, l.
    repeat split; try reflexivity; try assumption; now apply Z.ltb_lt.
Qed.

(** A quotient by zero is no finite number, and [Math.floor] keeps it so. *)
Lemma floor_div_zero (x : number) (s : bool) :
  Number.to_integer (Number.floor (Number.div x (S754_zero s))) = None.
Proof. destruct x as [? | ? | | ? ? ?]; reflexivity. Qed.

(** X7.  A boundary of width zero cannot be served: the height requested for
    the base is no finite number, the engine refuses it, and
    [placeOnTransparent] throws without writing. *)
Theorem zero_width_boundary_throws (w : world) (b bgf out : string)
    (tb : boundary) (s : bool) :
  tb_width tb = S754_zero s ->
  exists msg, placeOnTransparent b bgf out (Some tb) w = (w, Throw msg).
Proof.
  intros Hw. unfold placeOnTransparent. unfold_monad. unfold_io.
  destruct (decode w b) as [base|]; [| eauto].
  unfold base_height. rewrite Hw, floor_div_zero. eauto.
Qed.

End CompositorEdges.

(* ===================================================================== *)
(** ** Further properties: one pair *)
(* ===================================================================== *)

Section PairEdges.
Context `{Platform}.

Lemma orientation_two_valued (d : dims) :
  baseOrientation d = "landscape" \/ baseOrientation d = "portrait".
Proof. unfold baseOrientation. destruct (height d <? width d); auto. Qed.

(** X8.  An "embedded" entry whose orientation is neither "landscape" nor
    "portrait" (a missing one included) never yields an image: for any base
    file that exists, the pair leaves files and encoded paths as they are;
    when the base decodes it does so without an error. *)
Theorem undeclared_orientation_never_generates (o : options) (ratio : number)
    (b i : string) (m : background_meta) (w : world) :
  composite m = Some "embedded" ->
  orientation m <> Some "landscape" ->
  orientation m <> Some "portrait" ->
  is_Some (fs w !! b) ->
  let run := generate_pair o ratio b (i, m) w in
  fs (fst run) = fs w /\
  encoded (fst run) = encoded w /\
  (is_Some (decode w b) -> snd run = Ok tt).
Proof.
  intros Hm Hl Hp Hb run. subst run.
  unfold generate_pair. cbn [fst snd].
  set (out := outputFile o ratio b i).
  unfold mbind at 1 2 3. unfold M_bind.
  rewrite (up_to_date_run w b out Hb).
  destruct (current w b out); [repeat split |].
  unfold compose_pair.
  rewrite (embedded_not_center m Hm), (proj2 (is_mode_true m "embedded") Hm).
  unfold mbind, M_bind, metadata.
  destruct (decode w b) as [base|] eqn:Hd.
  - rewrite bool_decide_eq_true_2; [repeat split |].
    destruct (orientation_two_valued base) as [-> | ->]; congruence.
  - repeat split. intros [? ?]. discriminate.
Qed.

(** X9.  An "embedded" entry that lacks its boundary is found out only when
    it is used: with a base of the declared orientation and no current
    output the pair throws, and nothing is written or printed. *)
Theorem missing_boundary_throws (o : options) (ratio : number)
    (b i : string) (m : background_meta) (w : world) (base : dims) :
  composite m = Some "embedded" ->
  transparentBoundary m = None ->
  decode w b = Some base ->
  orientation m = Some (baseOrientation base) ->
  current w b (outputFile o ratio b i) = false ->
  exists msg, generate_pair o ratio b (i, m) w = (w, Throw msg).
Proof.
  intros Hm Htb Hd Ho Hc.
  unfold generate_pair. cbn [fst snd].
  unfold mbind at 1. unfold M_bind.
  rewrite (up_to_date_run w b _ (decode_exists _ _ _ Hd)), Hc.
  unfold compose_pair.
  rewrite (embedded_not_center m Hm), (proj2 (is_mode_true m "embedded") Hm).
  unfold mbind at 1. unfold M_bind. rewrite (metadata_run _ _ _ Hd).
  rewrite bool_decide_eq_false_2 by (intros Hne; apply Hne; now rewrite Ho).
  unfold mbind at 1. unfold M_bind.
  unfold placeOnTransparent. unfold mbind at 1. unfold M_bind.
  rewrite (metadata_run _ _ _ Hd), Htb.
  unfold mbind, M_bind, throw. eauto.
Qed.

(** X10.  Regeneration of a centered pair.  When the output is absent or older
    than the base file, both images decode, the base fits on the resized
    background (itself within the limits of a JPEG) and the base file is not
    stamped later than the clock, the pair writes the output anew, prints
    the "Generate" line, and the output is current afterwards: run again at
    once, the pair only prints "Skip". *)
Theorem stale_output_regenerated (o : options) (ratio : number) (b i : string)
    (m : background_meta) (w : world) (base bg : dims) (target : Z) (fb : file) :
  composite m = Some "center" ->
  decode w b = Some base ->
  decode w (backgroundFile m) = Some bg ->
  Number.to_integer (center_target base) = Some target ->
  0 < target ->
  fits base (Dims target (auto_height (width bg) (height bg) target)) = true ->
  encodable (Dims target (auto_height (width bg) (height bg) target)) = true ->
  fs w !! b = Some fb ->
  mtime fb <= clock w ->
  let out := outputFile o ratio b i in
  is_directory w out = false ->
  current w b out = false ->
  b <> out ->
  let w1 := with_console (rendered w out bg (center_render b (backgroundFile m) target))
                         (console w ++ [generate_line out]) in
  generate_pair o ratio b (i, m) w = (w1, Ok tt) /\
  current w1 b out = true /\
  generate_pair o ratio b (i, m) w1
  = (with_console w1 (console w1 ++ [skip_line out]), Ok tt).
Proof.
  intros Hm Hd Hbg Ht Hpos Hfit Hen Hfb Hle out Hdir Hc Hne w1.
  assert (Hb : is_Some (fs w !! b)) by eauto.
  assert (Hrun : generate_pair o ratio b (i, m) w = (w1, Ok tt)).
  { unfold generate_pair. cbn [fst snd]. fold out.
    unfold mbind at 1. unfold M_bind. rewrite (up_to_date_run w b out Hb), Hc.
    unfold compose_pair. rewrite (proj2 (is_mode_true m "center") Hm).
    unfold mbind, M_bind.
    now rewrite (centerImage_succeeds w b (backgroundFile m) out base bg target). }
  assert (Hcur : current w1 b out = true).
  { apply current_true. exists fb, (File (clock w) (Image (canvas bg (center_render b (backgroundFile m) target)) (Some (center_render b (backgroundFile m) target)))).
    subst w1. cbn [fs with_console]. unfold rendered.
    rewrite write_lookup_ne by exact Hne.
    split; [exact Hfb |]. split; [apply rendered_lookup | exact Hle]. }
  split; [exact Hrun |]. split; [exact Hcur |].
  unfold generate_pair. cbn [fst snd]. fold out.
  unfold mbind, M_bind.
  rewrite (up_to_date_run w1 b out), Hcur; [reflexivity |].
  subst w1. cbn [fs with_console]. unfold rendered.
  rewrite write_lookup_ne by exact Hne. exact Hb.
Qed.


End PairEdges.

(* ===================================================================== *)
(** ** Further properties: the whole run *)
(* ===================================================================== *)

Section RunEdges.
Context `{Platform}.

(** *** What a run may touch *)

Lemma changes_only_nothing (w w' : world) :
  same_files w w' -> (exists lines, console w' = console w ++ lines) ->
  changes_only w w' [].
Proof.
  intros (Hfs & Hck & Henc) Hcon. unfold changes_only.
  rewrite Hfs, Hck, Henc, app_nil_r. cbn [length Z.of_nat].
  split; [reflexivity |]. split; [lia |]. split; [exact Hcon |].
  split; [reflexivity |]. intros p Hp. inversion Hp.
Qed.

Lemma changes_only_then (w w1 w2 : world) (l1 l2 : list string) :
  changes_only w w1 l1 -> changes_only w1 w2 l2 -> changes_only w w2 (l1 ++ l2).
Proof.
  intros (He1 & Hc1 & [c1 Hp1] & Hf1 & Hi1) (He2 & Hc2 & [c2 Hp2] & Hf2 & Hi2).
  unfold changes_only.
  split; [rewrite He2, He1; now rewrite app_assoc |].
  split; [rewrite Hc2, Hc1, length_app; lia |].
  split; [exists (c1 ++ c2); rewrite Hp2, Hp1; now rewrite app_assoc |].
  split.
  - intros p Hp. rewrite elem_of_app in Hp.
    rewrite Hf2, Hf1; [reflexivity | |]; intros Hin; apply Hp; auto.
  - intros p Hp.
    destruct (decide (p ∈ l2)) as [Hin2 | Hout2].
    + destruct (Hi2 p Hin2) as (t & d & r & Hfile & Ht).
      exists t, d, r. split; [exact Hfile | lia].
    + assert (Hin1 : p ∈ l1) by (apply elem_of_app in Hp as [? | ?]; [assumption | contradiction]).
      destruct (Hi1 p Hin1) as (t & d & r & Hfile & Ht).
      exists t, d, r. rewrite Hf2 by exact Hout2. split; [exact Hfile | lia].
Qed.

Lemma changes_only_pair (o : options) (ratio : number) (b : string)
    (e : string * background_meta) (w : world) :
  let w' := fst (generate_pair o ratio b e w) in
  changes_only w w' [] \/
  (current w b (outputFile o ratio b (fst e)) = false /\
   changes_only w w' [outputFile o ratio b (fst e)]).
Proof.
  intros w'. subst w'.
  destruct (generate_pair o ratio b e w) as [w' res] eqn:Hrun. cbn [fst].
  apply generate_pair_effect in Hrun.
  set (out := outputFile o ratio b (fst e)) in *.
  inversion Hrun as [Hc | base Hc Hm Hd Ho | Hc Hma Hmb | base bg r Hc Hd Hdir | msg];
    subst.
  - left. apply changes_only_nothing; [apply with_console_same | cbn; eauto].
  - left. apply changes_only_nothing; [repeat split | exists []; now rewrite app_nil_r].
  - left. apply changes_only_nothing; [apply with_console_same | cbn; eauto].
  - right. split; [exact Hc |]. unfold changes_only.
    cbn [encoded clock console fs with_console rendered write length Z.of_nat].
    split; [reflexivity |]. split; [lia |]. split; [eauto |]. split.
    + intros p Hp. apply lookup_insert_ne. intros ->. apply Hp. now left.
    + intros p Hp. apply list_elem_of_singleton in Hp as ->.
      exists (clock w), (canvas bg r), r.
      split; [apply lookup_insert_eq | lia].
  - left. apply changes_only_nothing; [repeat split | exists []; now rewrite app_nil_r].
Qed.

(** X12.  A run of [generate] touches nothing but its outputs.  The paths it
    encodes are output paths of its pairs; each then holds a generated image
    stamped during the run; every other path of the file system, base files
    and catalog included, holds exactly what it held before (no file is
    deleted); the clock advances once per encoded file and the console only
    grows. *)
Theorem generate_touches_only_outputs (o : options) (ratio : number) (w : world) :
  exists l,
    changes_only w (fst (generate o ratio w)) l /\
    Forall (fun p => exists b k,
                b ∈ globSync_on (fs w) (pattern o) /\
                p = outputFile o ratio b (index_key k)) l.
Proof.
  destruct (decide (globSync_on (fs w) (pattern o) = [])) as [Hnil | Hne].
  { exists []. rewrite (generate_empty o ratio w Hnil). cbn [fst].
    split; [| constructor].
    apply changes_only_nothing; [apply with_console_same | cbn; eauto]. }
  destruct (catalog_of w) as [metas|] eqn:Hcat.
  2: { destruct (generate_no_catalog o ratio w Hne Hcat) as (msg & ->).
       exists []. split; [| constructor].
       apply changes_only_nothing; [repeat split | exists []; now rewrite app_nil_r]. }
  rewrite (generate_unfold o ratio w metas Hne Hcat).
  apply (for_of_invariant
           (fun w' => exists l, changes_only w w' l /\
              Forall (fun p => exists b k,
                          b ∈ globSync_on (fs w) (pattern o) /\
                          p = outputFile o ratio b (index_key k)) l)).
  - intros [b [i m]] w' Hp (l & Hl & Hall).
    apply pairs_of_elem in Hp as [Hb He]. cbn [fst snd] in *.
    apply entries_elem in He as (k & -> & Hk).
    destruct (changes_only_pair o ratio b (index_key k, m) w') as [Hstep | [_ Hstep]];
      cbn [fst] in Hstep.
    + exists l. split; [| exact Hall].
      rewrite <- (app_nil_r l). now apply (changes_only_then w w').
    + exists (l ++ [outputFile o ratio b (index_key k)]).
      split; [now apply (changes_only_then w w') |].
      apply Forall_app. split; [exact Hall |].
      constructor; [| constructor]. eauto.
  - exists []. split; [| constructor].
    apply changes_only_nothing; [repeat split | exists []; now rewrite app_nil_r].
Qed.

(** *** Which pairs a run regenerates *)

Lemma current_after_write (B : list string) (w : world) (out : string) (c : content)
    (b out' : string) :
  protected B w -> b ∈ B -> out ∉ B ->
  current w b out' = true -> current (write w out c) b out' = true.
Proof.
  intros Hin Hb Hout Hc.
  assert (Hne : b <> out) by (intros ->; contradiction).
  apply current_true in Hc as (fb & fo & Hfb & Hfo & Hle). apply current_true.
  destruct (decide (out' = out)) as [-> | Hne'].
  - exists fb, (File (clock w) c). rewrite write_lookup_ne by exact Hne.
    split; [exact Hfb |]. split; [unfold write; simpl; apply lookup_insert_eq |].
    destruct (Hin b Hb) as (fb' & Hfb' & Hle'). simpl. congruence.
  - exists fb, fo. now rewrite !write_lookup_ne.
Qed.

(** X13.  Only pairs whose output was not current can be regenerated.  When no
    base file is stamped later than the clock and no output path is a base
    file, every path a run encodes is the output of a pair whose output was
    absent or older than its base file when the run began: a pair that was
    up to date at the start is never composited again. *)
Theorem regeneration_is_local (o : options) (ratio : number) (w : world)
    (metas : list background_meta) :
  let bases := globSync_on (fs w) (pattern o) in
  catalog_of w = Some metas ->
  bases_in_time w bases = true ->
  outputs_apart o ratio bases (length metas) = true ->
  exists l,
    encoded (fst (generate o ratio w)) = encoded w ++ l /\
    Forall (fun p => exists b k m,
                b ∈ bases /\ metas !! k = Some m /\
                p = outputFile o ratio b (index_key k) /\
                current w b p = false) l.
Proof.
  intros bases Hcat Htime Hapart.
  destruct (decide (bases = [])) as [Hnil | Hne].
  { exists []. rewrite (generate_empty o ratio w Hnil). cbn [fst encoded with_console].
    split; [now rewrite app_nil_r | constructor]. }
  rewrite (generate_unfold o ratio w metas Hne Hcat). fold bases.
  pose proof (outputs_apart_spec o ratio bases metas Hapart) as Hstatic.
  rewrite Forall_forall in Hstatic.
  assert (Hinv :
    let P := fun w' =>
      protected bases w' /\
      (forall b out', b ∈ bases -> current w b out' = true -> current w' b out' = true) /\
      exists l, encoded w' = encoded w ++ l /\
        Forall (fun p => exists b k m,
                    b ∈ bases /\ metas !! k = Some m /\
                    p = outputFile o ratio b (index_key k) /\
                    current w b p = false) l in
    P (fst (for_of (pairs_of bases (entries metas))
                   (fun p => generate_pair o ratio (fst p) (snd p)) w))).
  { intros P. apply for_of_invariant.
    - intros [b [i m]] w' Hp (Hprot & Hkeep & l & Hl & Hall).
      destruct (Hstatic _ Hp) as [Hb Hout]. cbn [fst snd] in *.
      apply pairs_of_elem in Hp as [_ He]. cbn [snd] in He.
      apply entries_elem in He as (k & -> & Hk).
      destruct (generate_pair o ratio b (index_key k, m) w') as [w'' res] eqn:Hrun.
      cbn [fst]. apply generate_pair_effect in Hrun. cbn [fst snd] in Hrun.
      set (out := outputFile o ratio b (index_key k)) in *.
      inversion Hrun as [Hc | base Hc Hm Hd Ho | Hc Hma Hmb | base bg r Hc Hd Hdir | msg];
        subst.
      + split; [apply (in_time_same_files bases w'); [apply with_console_same | exact Hprot] |].
        split; [| exists l; now split].
        intros b' out' Hb' Hcur. rewrite (current_same_files w'); [auto | apply with_console_same].
      + split; [exact Hprot |]. split; [exact Hkeep | exists l; now split].
      + split; [apply (in_time_same_files bases w'); [apply with_console_same | exact Hprot] |].
        split; [| exists l; now split].
        intros b' out' Hb' Hcur. rewrite (current_same_files w'); [auto | apply with_console_same].
      + set (wr := rendered w' out bg r).
        assert (Hsame : same_files wr (with_console wr (console w' ++ [generate_line out])))
          by apply with_console_same.
        split; [apply (in_time_same_files bases wr); [exact Hsame |];
                now apply in_time_after_write |].
        split.
        * intros b' out' Hb' Hcur. rewrite (current_same_files wr) by exact Hsame.
          apply (current_after_write bases); auto.
        * exists (l ++ [out]). cbn [encoded with_console]. unfold wr, rendered, write.
          cbn [encoded]. split; [rewrite Hl; now rewrite app_assoc |].
          apply Forall_app. split; [exact Hall |].
          constructor; [| constructor]. exists b, k, m.
          repeat split; try assumption.
          destruct (current w b out) eqn:Hstart; [| reflexivity].
          rewrite (Hkeep b out Hb Hstart) in Hc. discriminate.
      + split; [exact Hprot |]. split; [exact Hkeep | exists l; now split].
    - split; [now apply bases_in_time_spec |]. split; [auto |].
      exists []. split; [now rewrite app_nil_r | constructor]. }
  destruct Hinv as (_ & _ & l & Hl & Hall). exists l. now split.
Qed.

(** *** Errors *)

(** X14.  The catalog is read once, before the first pair, and only when
    there is a base file.  Without a readable catalog, a run that finds no
    base file still ends normally with its one line; a run that finds base
    files throws at once: no pair is looked at, nothing is printed, nothing
    is written, whatever the state of the outputs. *)
Theorem unreadable_catalog_throws (o : options) (ratio : number) (w : world) :
  catalog_of w = None ->
  (globSync_on (fs w) (pattern o) = [] ->
   generate o ratio w
   = (with_console w
        (console w ++ [("Base image not found in " ++ pattern o ++ ".")%string]), Ok tt)) /\
  (globSync_on (fs w) (pattern o) <> [] ->
   exists msg, generate o ratio w = (w, Throw msg)).
Proof.
  intros Hcat. split.
  - apply generate_empty.
  - intros Hne. now apply generate_no_catalog.
Qed.


(** *** The start of the script *)

Lemma grows_refl (S : list string) (w : world) : grows S w w.
Proof.
  unfold grows. split; [auto |]. split; [| repeat split; lia].
  intros q Hnone [f Hf]. congruence.
Qed.

Lemma grows_trans (S : list string) (w w1 w2 : world) :
  grows S w w1 -> grows S w1 w2 -> grows S w w2.
Proof.
  intros (Hk1 & Hn1 & Hc1 & He1 & Ht1) (Hk2 & Hn2 & Hc2 & He2 & Ht2).
  split; [auto |]. split; [| repeat split; try congruence; lia].
  intros p Hnone Hsome.
  destruct (fs w1 !! p) as [f1|] eqn:H1.
  - destruct (Hn1 p Hnone ltac:(eauto)) as (Hin & t & Hf & Hle).
    split; [exact Hin |]. exists t. split; [| exact Hle].
    apply Hk2. congruence.
  - destruct (Hn2 p H1 Hsome) as (Hin & t & Hf & Hle).
    split; [exact Hin |]. exists t. split; [exact Hf | lia].
Qed.

Lemma grows_mono (S S' : list string) (w w' : world) :
  (forall p, p ∈ S -> p ∈ S') -> grows S w w' -> grows S' w w'.
Proof.
  intros Hsub (Hk & Hn & Hrest). split; [exact Hk |]. split; [| exact Hrest].
  intros p Hnone Hsome. destruct (Hn p Hnone Hsome) as (Hin & Ht). auto.
Qed.

(** What stood in the way afterwards stood in the way before. *)
Lemma obstructed_before (S : list string) (w w' : world) (q : string) :
  grows S w w' -> obstructed w' q -> obstructed w q.
Proof.
  intros (Hk & Hn & _) (f & Hf & Hdir).
  destruct (fs w !! q) as [f0|] eqn:H0.
  - exists f0. split; [exact H0 |]. rewrite (Hk q f0 H0) in Hf. congruence.
  - destruct (Hn q H0 ltac:(eauto)) as (_ & t & Ht & _).
    rewrite Ht in Hf. injection Hf as <-. now contradiction Hdir.
Qed.

Lemma mkdir_step_spec (error d : string) (w : world) :
  grows [d] w (fst (mkdir_step error d w)) /\
  (snd (mkdir_step error d w) = Ok tt ->
   exists t, fs (fst (mkdir_step error d w)) !! d = Some (File t Directory)) /\
  (forall msg, snd (mkdir_step error d w) = Throw msg -> obstructed w d).
Proof.
  unfold mkdir_step.
  destruct (fs w !! d) as [[t c]|] eqn:Hd; cbn [fst snd].
  - assert (Hg : grows [d] w w) by apply grows_refl.
    destruct c; cbn [fst snd]; (split; [exact Hg |]); split;
      try discriminate; try (intros _; eauto);
      intros msg _; eexists; (split; [exact Hd | discriminate]).
  - split; [| split; [| discriminate]].
    + unfold grows. cbn [fs console clock encoded].
      split.
      { intros p f Hp. rewrite lookup_insert_ne; [exact Hp | congruence]. }
      split; [| repeat split; lia].
      intros p Hnone Hsome.
      destruct (decide (p = d)) as [-> | Hne].
      * split; [left |]. exists (clock w). split; [apply lookup_insert_eq | lia].
      * rewrite lookup_insert_ne in Hsome by congruence.
        destruct Hsome as [f Hf]. congruence.
    + intros _. exists (clock w). cbn [fs]. apply lookup_insert_eq.
Qed.

(** A chain of steps makes directories along the list; if it throws,
    something stood in the way at one of its paths. *)
Lemma mkdir_chain (error : string) (l : list string) (w : world) :
  grows l w (fst (for_of l (mkdir_step error) w)) /\
  (forall msg, snd (for_of l (mkdir_step error) w) = Throw msg ->
               exists q, q ∈ l /\ obstructed w q).
Proof.
  revert w. induction l as [| d l IH]; intros w.
  - split; [apply grows_refl | discriminate].
  - cbn [for_of]. unfold mbind, M_bind.
    destruct (mkdir_step_spec error d w) as (Hg & _ & Hthrow).
    destruct (mkdir_step error d w) as [w1 [[] | e]]; cbn [fst snd] in *.
    + destruct (IH w1) as (Hg' & Hthrow').
      split.
      * eapply grows_trans.
        -- eapply grows_mono; [| exact Hg]. intros p Hp.
           apply list_elem_of_singleton in Hp as ->. left.
        -- eapply grows_mono; [| exact Hg']. intros p Hp. now right.
      * intros msg Hmsg. destruct (Hthrow' msg Hmsg) as (q & Hq & Hob).
        exists q. split; [now right |]. eapply obstructed_before; eassumption.
    + split.
      * eapply grows_mono; [| exact Hg]. intros p Hp.
        apply list_elem_of_singleton in Hp as ->. left.
      * intros msg _. exists d. split; [left | eauto].
Qed.

Lemma mkdirSync_spec (p : string) (w : world) :
  grows (lineage p) w (fst (mkdirSync p w)) /\
  (snd (mkdirSync p w) = Ok tt -> is_Some (fs (fst (mkdirSync p w)) !! p)) /\
  (forall msg, snd (mkdirSync p w) = Throw msg ->
               exists q, q ∈ lineage p /\ obstructed w q).
Proof.
  unfold mkdirSync, lineage. unfold mbind, M_bind.
  destruct (mkdir_chain "ENOTDIR: not a directory" (ancestors p) w) as (Hg & Hthrow).
  destruct (for_of (ancestors p) (mkdir_step "ENOTDIR: not a directory") w)
    as [w1 [[] | e]]; cbn [fst snd] in *.
  - destruct (mkdir_step_spec "EEXIST: file already exists" p w1) as (Hg' & Hok & Hthrow').
    split; [| split].
    + eapply grows_trans.
      * eapply grows_mono; [| exact Hg]. intros q Hq. apply elem_of_app. now left.
      * eapply grows_mono; [| exact Hg']. intros q Hq. apply elem_of_app. now right.
    + intros Hres. destruct (Hok Hres) as [t Ht]. eauto.
    + intros msg Hmsg. exists p. split.
      * apply elem_of_app. right. left.
      * eapply obstructed_before; [exact Hg | eauto].
  - split; [| split; [discriminate |]].
    + eapply grows_mono; [| exact Hg]. intros q Hq. apply elem_of_app. now left.
    + intros msg _. destruct (Hthrow e eq_refl) as (q & Hq & Hob).
      exists q. split; [apply elem_of_app; now left | exact Hob].
Qed.

Lemma obstructed_after (S : list string) (w w' : world) (q : string) :
  grows S w w' -> obstructed w q -> obstructed w' q.
Proof. intros (Hk & _) (f & Hf & Hdir). exists f. auto. Qed.

Lemma mkdir_chain_blocked (error : string) (l : list string) (w : world) (q : string) :
  q ∈ l -> obstructed w q ->
  exists msg, snd (for_of l (mkdir_step error) w) = Throw msg.
Proof.
  revert w. induction l as [| d l IH]; intros w Hq Hob; [inversion Hq |].
  cbn [for_of]. unfold mbind, M_bind.
  destruct (mkdir_step_spec error d w) as (Hg & _ & _).
  destruct (mkdir_step error d w) as [w1 [[] | e]] eqn:Hstep; cbn [fst snd] in *; [| eauto].
  apply elem_of_cons in Hq as [-> | Hq].
  - exfalso. destruct Hob as (f & Hf & Hdir). unfold mkdir_step in Hstep.
    rewrite Hf in Hstep. destruct f as [t []]; try discriminate. now apply Hdir.
  - apply IH; [exact Hq |]. eapply obstructed_after; eassumption.
Qed.

Lemma mkdirSync_blocked (p : string) (w : world) (q : string) :
  q ∈ ancestors p -> obstructed w q -> exists msg, snd (mkdirSync p w) = Throw msg.
Proof.
  intros Hq Hob. unfold mkdirSync. unfold mbind, M_bind.
  destruct (mkdir_chain_blocked "ENOTDIR: not a directory" (ancestors p) w q Hq Hob)
    as [msg Hmsg].
  destruct (for_of (ancestors p) _ w) as [w1 [[] | e]]; cbn [snd] in *;
    [discriminate | eauto].
Qed.

(** The prefixes found are those that stand before a slash, are not empty
    and do not end in a slash themselves. *)
Lemma prefixes_spec (seen rest : list ascii) (q : string) :
  q ∈ prefixes seen rest <->
  exists r1 r2, rest = r1 ++ "/"%char :: r2 /\
                q = string_of_list_ascii (rev seen ++ r1) /\
                match rev r1 ++ seen with
                | [] => False
                | c :: _ => Ascii.eqb c "/" = false
                end.
Proof.
  revert seen. induction rest as [| c rest IH]; intros seen.
  - cbn [prefixes]. split; [intros Hq; inversion Hq |].
    intros (r1 & r2 & Hr & _). now destruct r1.
  - cbn [prefixes]. rewrite elem_of_app, IH. split.
    + intros [Hhead | (r1 & r2 & -> & -> & Hgood)].
      * destruct (Ascii.eqb c "/") eqn:Hc; [| inversion Hhead].
        apply Ascii.eqb_eq in Hc as ->.
        destruct seen as [| c' seen']; [inversion Hhead |].
        destruct (Ascii.eqb c' "/") eqn:Hc'; [inversion Hhead |].
        apply list_elem_of_singleton in Hhead as ->.
        exists [], rest. rewrite app_nil_r. repeat split. exact Hc'.
      * exists (c :: r1), r2. split; [reflexivity |]. split.
        -- cbn [rev]. now rewrite <- app_assoc.
        -- cbn [rev]. now rewrite <- app_assoc.
    + intros (r1 & r2 & Hr & -> & Hgood). destruct r1 as [| c1 r1].
      * left. cbn [app] in Hr. injection Hr as -> ->. cbn [rev app] in Hgood.
        rewrite Ascii.eqb_refl. destruct seen as [| c' seen']; [contradiction |].
        rewrite Hgood. rewrite app_nil_r. left.
      * right. cbn [app] in Hr. injection Hr as -> ->.
        exists r1, r2. split; [reflexivity |]. split.
        -- cbn [rev]. now rewrite <- app_assoc.
        -- cbn [rev] in Hgood. now rewrite <- app_assoc in Hgood.
Qed.

Lemma ancestors_spec (p q : string) :
  q ∈ ancestors p <->
  exists r1 r2, list_ascii_of_string p = r1 ++ "/"%char :: r2 /\
                q = string_of_list_ascii r1 /\
                match rev r1 with
                | [] => False
                | c :: _ => Ascii.eqb c "/" = false
                end.
Proof.
  unfold ancestors. rewrite prefixes_spec.
  split; intros (r1 & r2 & Hr & Hq & Hgood); exists r1, r2;
    rewrite ?app_nil_r in *; auto.
Qed.

(** An ancestor of an ancestor is an ancestor. *)
Lemma ancestors_trans (p d q : string) :
  d ∈ ancestors p -> q ∈ ancestors d -> q ∈ ancestors p.
Proof.
  intros Hd Hq.
  apply ancestors_spec in Hd as (d1 & d2 & Hp & -> & _).
  apply ancestors_spec in Hq as (q1 & q2 & Hd & -> & Hgood).
  rewrite list_ascii_of_string_of_list_ascii in Hd. subst d1.
  apply ancestors_spec. exists q1, (q2 ++ "/"%char :: d2).
  split; [| split; [reflexivity | exact Hgood]].
  rewrite Hp. now rewrite <- app_assoc.
Qed.

(** Lines 139-144 for one directory. *)
Lemma ensure_spec (d : string) (w : world) :
  let run := (present ← existsSync d;
              if (present : bool) then mret tt else mkdirSync d) w in
  grows (lineage d) w (fst run) /\
  (snd run = Ok tt -> is_Some (fs (fst run) !! d)) /\
  (forall msg, snd run = Throw msg ->
               fs w !! d = None /\ exists q, q ∈ ancestors d /\ obstructed w q).
Proof.
  unfold mbind, M_bind, existsSync. cbv zeta.
  case_bool_decide as Hd; cbn [fst snd].
  - split; [apply grows_refl |]. split; [auto | discriminate].
  - assert (Hnone : fs w !! d = None).
    { destruct (fs w !! d) eqn:E; [exfalso; apply Hd; eauto | reflexivity]. }
    destruct (mkdirSync_spec d w) as (Hg & Hok & Hthrow).
    split; [exact Hg |]. split; [exact Hok |].
    intros msg Hmsg. split; [exact Hnone |].
    destruct (Hthrow msg Hmsg) as (q & Hq & Hob).
    exists q. split; [| exact Hob].
    unfold lineage in Hq. apply elem_of_app in Hq as [Hq | Hq]; [exact Hq |].
    apply list_elem_of_singleton in Hq as ->.
    destruct Hob as (f & Hf & _). congruence.
Qed.

Lemma elem_of_lineages (dirs : list string) (p : string) :
  p ∈ lineages dirs <-> exists d, d ∈ dirs /\ p ∈ lineage d.
Proof.
  unfold lineages. rewrite list_elem_of_bind. split; intros (d & ? & ?); eauto.
Qed.

Lemma ensure_directories (l : list string) (w : world) :
  let run := for_of l (fun outputDir =>
                         present ← existsSync outputDir;
                         if (present : bool) then mret tt else mkdirSync outputDir) w in
  grows (lineages l) w (fst run) /\
  (snd run = Ok tt -> forall d, d ∈ l -> is_Some (fs (fst run) !! d)) /\
  (forall msg, snd run = Throw msg ->
               exists d q, d ∈ l /\ fs w !! d = None /\
                           q ∈ ancestors d /\ obstructed w q).
Proof.
  cbv zeta.
  set (body := fun outputDir : string =>
                 present ← existsSync outputDir;
                 if (present : bool) then mret tt else mkdirSync outputDir).
  revert w. induction l as [| d l IH]; intros w.
  - split; [apply grows_refl |]. split; [| discriminate].
    intros _ d Hd. inversion Hd.
  - cbn [for_of].
    change ((body d ;; for_of l body) w)
      with (match body d w with
            | (w', Ok a) => for_of l body w'
            | (w', Throw e) => (w', Throw e)
            end).
    destruct (ensure_spec d w) as (Hg & Hok & Hthrow). fold (body d) in Hg, Hok, Hthrow.
    destruct (body d w) as [w1 [[] | e]]; cbn [fst snd] in *.
    + destruct (IH w1) as (Hg' & Hok' & Hthrow').
      assert (Hgrow : grows (lineages (d :: l)) w (fst (for_of l body w1))).
      { eapply grows_trans.
        - eapply grows_mono; [| exact Hg]. intros p Hp.
          apply elem_of_lineages. exists d. split; [left | exact Hp].
        - eapply grows_mono; [| exact Hg']. intros p Hp.
          apply elem_of_lineages in Hp as (x & Hx & Hp).
          apply elem_of_lineages. exists x. split; [now right | exact Hp]. }
      split; [exact Hgrow |]. split.
      * intros Hres x Hx. apply elem_of_cons in Hx as [-> | Hx]; [| now apply Hok'].
        destruct (Hok eq_refl) as [f Hf].
        destruct Hg' as (Hk & _). rewrite (Hk d f Hf). eauto.
      * intros msg Hmsg.
        destruct (Hthrow' msg Hmsg) as (x & q & Hx & Hnone & Hq & Hob).
        exists x, q. split; [now right |]. split; [| split; [exact Hq |]].
        -- destruct Hg as (Hk & _).
           destruct (fs w !! x) as [f|] eqn:E; [| reflexivity].
           rewrite (Hk x f E) in Hnone. discriminate.
        -- exact (obstructed_before _ _ _ _ Hg Hob).
    + split.
      * eapply grows_mono; [| exact Hg]. intros p Hp.
        apply elem_of_lineages. exists d. split; [left | exact Hp].
      * split; [discriminate |].
        intros msg _. destruct (Hthrow e eq_refl) as (Hnone & q & Hq & Hob).
        exists d, q. split; [left | auto].
Qed.

Lemma ensure_blocked (l : list string) (w : world) :
  blocked w l ->
  exists msg,
    snd (for_of l (fun outputDir =>
                     present ← existsSync outputDir;
                     if (present : bool) then mret tt else mkdirSync outputDir) w)
    = Throw msg.
Proof.
  set (body := fun outputDir : string =>
                 present ← existsSync outputDir;
                 if (present : bool) then mret tt else mkdirSync outputDir).
  revert w. induction l as [| d0 l IH]; intros w (d & q & Hd & Hnone & Hq & Hob);
    [inversion Hd |].
  cbn [for_of].
  change ((body d0 ;; for_of l body) w)
    with (match body d0 w with
          | (w', Ok a) => for_of l body w'
          | (w', Throw e) => (w', Throw e)
          end).
  destruct (ensure_spec d0 w) as (Hg & _ & _). fold (body d0) in Hg.
  assert (Hmk : fs w !! d0 = None -> forall q', q' ∈ ancestors d0 -> obstructed w q' ->
                exists msg, snd (body d0 w) = Throw msg).
  { intros H0 q' Hq' Hob'. unfold body, mbind, M_bind, existsSync.
    rewrite bool_decide_eq_false_2 by (rewrite H0; intros [? ?]; discriminate).
    now apply (mkdirSync_blocked d0 w q'). }
  destruct (body d0 w) as [w1 [[] | e]] eqn:Hrun; cbn [fst snd] in *; [| eauto].
  assert (Hhere : fs w !! d0 = None -> q ∈ ancestors d0 -> False).
  { intros H0 Hq0. destruct (Hmk H0 q Hq0 Hob) as [msg Hmsg]. discriminate. }
  destruct (fs w1 !! d) as [f|] eqn:Hd1.
  - exfalso.
    destruct Hg as (_ & Hnew & _).
    destruct (Hnew d Hnone ltac:(eauto)) as (Hin & _).
    assert (H0 : fs w !! d0 = None).
    { destruct (fs w !! d0) as [f0|] eqn:E; [| reflexivity].
      unfold body, mbind, M_bind, existsSync in Hrun.
      rewrite bool_decide_eq_true_2 in Hrun by (rewrite E; eauto).
      injection Hrun as <-. congruence. }
    unfold lineage in Hin. apply elem_of_app in Hin as [Hin | Hin].
    + apply (Hhere H0). now apply (ancestors_trans d0 d q).
    + apply list_elem_of_singleton in Hin as ->. now apply Hhere.
  - apply elem_of_cons in Hd as [-> | Hd].
    + exfalso. now apply Hhere.
    + apply IH. exists d, q. split; [exact Hd |]. split; [exact Hd1 |].
      split; [exact Hq |]. eapply obstructed_after; eassumption.
Qed.

(** X16.  Before it generates, the script makes sure of the output directory
    and of its [train] and [test] subdirectories, making missing ancestors
    on the way.  Whatever comes of it, only directories are made, and only
    at these three paths and their ancestors; whatever a path held it still
    holds, and nothing is printed or encoded.  When none of the three is
    missing below something that is no directory, all three paths exist
    afterwards and [generate] runs from there with the default ratio 0.8;
    when one of them is, the script ends with an error before [generate]
    is called. *)
Theorem output_directories_law (a : argv) (o : options) (w : world) :
  parse a = Ok o ->
  exists w',
    grows (lineages (outputDirs o)) w w' /\
    ((~ blocked w (outputDirs o) /\
      main a w = generate o default_trainRatio w' /\
      forall d, d ∈ outputDirs o -> is_Some (fs w' !! d)) \/
     (blocked w (outputDirs o) /\
      exists msg, main a w = (w', Throw msg))).
Proof.
  intros Hparse.
  destruct (ensure_directories (outputDirs o) w) as (Hg & Hok & Hthrow).
  assert (Hmain : main a w
                  = match for_of (outputDirs o)
                            (fun outputDir =>
                               present ← existsSync outputDir;
                               if (present : bool) then mret tt else mkdirSync outputDir) w
                    with
                    | (w', Ok _) => generate o default_trainRatio w'
                    | (w', Throw e) => (w', Throw e)
                    end).
  { unfold main. unfold mbind at 1. unfold M_bind, lift. now rewrite Hparse. }
  rewrite Hmain.
  pose proof (ensure_blocked (outputDirs o) w) as Hblocked.
  destruct (for_of (outputDirs o) _ w) as [w' [[] | e]]; cbn [fst snd] in *.
  - exists w'. split; [exact Hg |]. left.
    split; [| split; [reflexivity | now apply Hok]].
    intros Hb. destruct (Hblocked Hb) as [msg Hmsg]. discriminate.
  - exists w'. split; [exact Hg |]. right. split; [now apply (Hthrow e) | eauto].
Qed.

(** X17.  A command line that lacks the type or the output directory is
    refused like one with an unknown type: the script stops before it
    creates a directory or looks for a file.  A command line is accepted
    exactly when it gives a type among the choices and an output. *)
Theorem incomplete_command_line_rejected (a : argv) (w : world) :
  arg_type a = None \/ arg_output a = None ->
  (exists msg, main a w = (w, Throw msg)) /\
  (forall a' o',
     parse a' = Ok o' <->
     arg_type a' = Some (type o') /\ type o' ∈ choices /\ arg_output a' = Some (output o')).
Proof.
  intros Hmiss. split.
  - assert (exists msg, parse a = Throw msg) as [msg Hp].
    { unfold parse. destruct Hmiss as [-> | Hout]; [eauto |].
      rewrite Hout. destruct (arg_type a); [case_bool_decide |]; eauto. }
    exists msg. now apply parse_rejects_main.
  - intros a' o'. unfold parse. destruct a' as [[t|] [out|]], o' as [t' out']; cbn.
    + case_bool_decide; split.
      * intros [= <- <-]. auto.
      * intros ([= <-] & _ & [= <-]). reflexivity.
      * discriminate.
      * intros ([= <-] & Hin & _). contradiction.
    + case_bool_decide; split; try discriminate; intros (_ & _ & ?); discriminate.
    + split; [discriminate | intros (? & _); discriminate].
    + split; [discriminate | intros (? & _); discriminate].
Qed.

End RunEdges.

(** *** The further properties at concrete inputs *)

Lemma decimal_ratio_witness :
  @subdir Demo.platform "license_01_0.jpg" (Number.lit 3 10)
  = if Z.abs (@int32 Demo.platform "license_01_0.jpg") mod 10 <? 3 then "train" else "test".
Proof.
  refine (@decimal_ratio_split Demo.platform "license_01_0.jpg" 3 _). lia.
Defined.

Lemma ratio_two_witness :
  @subdir Demo.platform "license_01_0.jpg" (Number.of_Z 2) = "train".
Proof.
  refine (@ratio_at_least_one_all_train Demo.platform "license_01_0.jpg" (Number.of_Z 2) _).
  reflexivity.
Defined.

Lemma ratio_nan_witness :
  @subdir Demo.platform "license_01_0.jpg" S754_nan = "test".
Proof.
  refine (@ratio_not_positive_all_test Demo.platform "license_01_0.jpg" S754_nan _).
  reflexivity.
Defined.

Lemma zero_width_witness :
  exists msg,
    placeOnTransparent Demo.license "/app/background/frame.png"
                       "/app/out/train/license_01_1.jpg" (Some Demo.flat_cutout) Demo.w3
    = (Demo.w3, Throw msg).
Proof.
  refine (zero_width_boundary_throws Demo.w3 Demo.license
            "/app/background/frame.png" "/app/out/train/license_01_1.jpg"
            Demo.flat_cutout false _).
  reflexivity.
Defined.

Lemma undeclared_orientation_witness :
  let run := @generate_pair Demo.platform Demo.opts default_trainRatio Demo.license
                            ("1", Demo.undeclared_entry) Demo.w3 in
  fs (fst run) = fs Demo.w3 /\ encoded (fst run) = encoded Demo.w3.
Proof.
  cbv zeta.
  pose proof (@undeclared_orientation_never_generates Demo.platform Demo.opts
                default_trainRatio Demo.license "1" Demo.undeclared_entry Demo.w3
                eq_refl ltac:(discriminate) ltac:(discriminate)
                ltac:(vm_compute; eauto)) as (Hfs & Henc & _).
  split; assumption.
Defined.

Lemma missing_boundary_witness :
  exists msg,
    @generate_pair Demo.platform Demo.opts default_trainRatio Demo.license
                   ("1", Demo.no_boundary_entry) Demo.w3
    = (Demo.w3, Throw msg).
Proof.
  refine (@missing_boundary_throws Demo.platform Demo.opts default_trainRatio
            Demo.license "1" Demo.no_boundary_entry Demo.w3 (Dims 400 200) _ _ _ _ _);
    vm_compute; reflexivity.
Defined.

Lemma stale_output_witness :
  let out := "/app/out/train/license_01_0.jpg" in
  let w1 := fst (@generate_pair Demo.platform Demo.opts default_trainRatio Demo.license
                                ("0", Demo.center_entry "wood.jpg") Demo.w_stale) in
  mtime <$> (fs Demo.w_stale !! out) = Some 500 /\
  mtime <$> (fs w1 !! out) = Some 1000 /\
  current w1 Demo.license out = true.
Proof.
  cbv zeta.
  split; [vm_compute; reflexivity |]. split; [vm_compute; reflexivity |].
  pose proof (@stale_output_regenerated Demo.platform Demo.opts default_trainRatio
                Demo.license "0" (Demo.center_entry "wood.jpg") Demo.w_stale
                (Dims 400 200) (Dims 1000 800) 480 (Demo.raster 400 200 900)
                eq_refl ltac:(vm_compute; reflexivity) ltac:(vm_compute; reflexivity)
                ltac:(vm_compute; reflexivity) ltac:(lia)
                ltac:(vm_compute; reflexivity) ltac:(vm_compute; reflexivity)
                ltac:(vm_compute; reflexivity) ltac:(vm_compute; discriminate)
                ltac:(vm_compute; reflexivity) ltac:(vm_compute; reflexivity)
                ltac:(vm_compute; discriminate)) as (Hrun & Hcur & _).
  rewrite Hrun. exact Hcur.
Defined.


Lemma regeneration_witness :
  exists l,
    encoded (fst (@generate Demo.platform Demo.opts default_trainRatio Demo.w_stale))
    = encoded Demo.w_stale ++ l /\
    Forall (fun p => exists b k m,
                b ∈ @globSync_on Demo.platform (fs Demo.w_stale) (pattern Demo.opts) /\
                [Demo.center_entry "wood.jpg"] !! k = Some m /\
                p = @outputFile Demo.platform Demo.opts default_trainRatio b (index_key k) /\
                current Demo.w_stale b p = false) l.
Proof.
  refine (@regeneration_is_local Demo.platform Demo.opts default_trainRatio Demo.w_stale
            [Demo.center_entry "wood.jpg"] _ _ _);
    vm_compute; reflexivity.
Defined.

Lemma unreadable_catalog_witness :
  exists msg,
    @generate Demo.platform Demo.opts default_trainRatio Demo.w_no_catalog
    = (Demo.w_no_catalog, Throw msg).
Proof.
  refine (proj2 (@unreadable_catalog_throws Demo.platform Demo.opts default_trainRatio
                   Demo.w_no_catalog _) _).
  - vm_compute. reflexivity.
  - vm_compute. discriminate.
Defined.


(** With [-o a/b] the script has the three directories and their
    ancestors to make. *)
Lemma output_directories_witness :
  exists w',
    grows (lineages (@outputDirs Demo.platform (Options "sample" "a/b"))) Demo.w_home w' /\
    ((~ blocked Demo.w_home (@outputDirs Demo.platform (Options "sample" "a/b")) /\
      @main Demo.platform (Argv (Some "sample") (Some "a/b")) Demo.w_home
      = @generate Demo.platform (Options "sample" "a/b") default_trainRatio w' /\
      forall d, d ∈ @outputDirs Demo.platform (Options "sample" "a/b") ->
                is_Some (fs w' !! d)) \/
     (blocked Demo.w_home (@outputDirs Demo.platform (Options "sample" "a/b")) /\
      exists msg, @main Demo.platform (Argv (Some "sample") (Some "a/b")) Demo.w_home
                  = (w', Throw msg))).
Proof.
  refine (@output_directories_law Demo.platform (Argv (Some "sample") (Some "a/b"))
            (Options "sample" "a/b") Demo.w_home _).
  reflexivity.
Defined.

Lemma incomplete_command_line_witness :
  exists msg, @main Demo.platform (Argv (Some "cashcard") None) Demo.w3 = (Demo.w3, Throw msg).
Proof.
  refine (proj1 (@incomplete_command_line_rejected Demo.platform
                   (Argv (Some "cashcard") None) Demo.w3 _)).
  right. reflexivity.
Defined.
